(** * terraform-launch: the configuration-file generator and the command router

    A shallow embedding of [utils/tfgen.go] (the [TerraformFileConfig]
    generator) and of [main.go] (the command router and the plugin
    lifecycle), with the properties of the specification stated over it.

    Go strings are byte strings ([string]); Go slices are modelled with
    their backing array where sharing is observable; collaborators living
    outside the two source files (the JSON encoder, the HCL formatter, the
    sandbox, the plugins) are parameters. *)

From Stdlib Require Import String Ascii List Bool Arith Lia Permutation.
From Stdlib Require Import ZArith.
Import ListNotations.
Local Open Scope string_scope.
Local Open Scope list_scope.

(** ** The functions of Go's [strings] package the program calls *)
Module Strings.

(** [strings.Contains(s, substr)]: [substr] occurs somewhere within [s]. *)
Fixpoint Contains (s substr : string) : bool :=
  if String.prefix substr s then true
  else match s with
       | EmptyString => false
       | String _ rest => Contains rest substr
       end.

(** [strings.HasPrefix(s, prefix)]. *)
Definition HasPrefix (s prefix : string) : bool := String.prefix prefix s.

(** [strings.Join(elems, sep)]. *)
Definition Join (elems : list string) (sep : string) : string :=
  String.concat sep elems.

(** [strings.Split(s, sep)] for a one-byte separator, the only use the
    program makes of it ([strings.Split(value, "=")]). *)
Fixpoint Split (s : string) (sep : ascii) : list string :=
  match s with
  | EmptyString => [EmptyString]
  | String ch rest =>
      if Ascii.eqb ch sep then EmptyString :: Split rest sep
      else match Split rest sep with
           | [] => [String ch EmptyString]
           | h :: t => String ch h :: t
           end
  end.

End Strings.

(** The line separator ["\n"]. *)
Definition newline : string := String (ascii_of_nat 10) EmptyString.

(** ** Go maps with string keys

    A [map[string]V] is kept as an association list without duplicate
    keys.  Assignment [m[k] = v] replaces the binding of [k] or adds one. *)
Section GoMap.
  Context {V : Type}.

Definition gomap := list (string * V).

Fixpoint map_get (m : gomap) (k : string) : option V :=
    match m with
    | [] => None
    | (k', v) :: rest => if String.eqb k' k then Some v else map_get rest k
    end.

Fixpoint map_set (m : gomap) (k : string) (v : V) : gomap :=
    match m with
    | [] => [(k, v)]
    | (k', v') :: rest =>
        if String.eqb k' k then (k', v) :: rest
        else (k', v') :: map_set rest k v
    end.
End GoMap.
Arguments gomap : clear implicits.

(** ** Arrays behind slices *)
Section Arrays.
  (** [a[i] = x]. *)
Definition store (i : nat) (x : string) (a : list string) : list string :=
    firstn i a ++ match skipn i a with
                  | [] => []
                  | _ :: rest => x :: rest
                  end.

  (** [copy(a[i:n], a[i+1:n])]: cells [i+1 .. n-1] move one index down;
      cell [n-1] keeps its old content. *)
Definition copy_down (i n : nat) (a : list string) : list string :=
    firstn i a ++ firstn (n - S i) (skipn (S i) a) ++ skipn (n - 1) a.

  (** The list obtained from [l] by dropping position [i]. *)
Definition drop_at (i : nat) (l : list string) : list string :=
    firstn i l ++ skipn (S i) l.
End Arrays.

(** ** [utils/tfgen.go] *)
Module Tfgen.

(** A [*flag.Flag] as the generator reads it: [f.Name] and
    [f.Value.String()]. *)
Record Flag := mkFlag { Name : string; Value : string }.

(** A slice header over its backing array: [len] cells of [arr] are the
    slice's elements, [length arr] is its capacity. *)
Record Slice := mkSlice { arr : list string; len : nat }.

Definition elems (s : Slice) : list string := firstn (len s) (arr s).

(** The slice a composite literal [[]string{...}] builds. *)
Definition literal (l : list string) : Slice := mkSlice l (length l).

(** The memory that holds the cells of the receiver's slices, as one
    sequence of cells; a position in it is an address. *)
Definition Memory := list string.

(** [n] cells of [mem] from address [p]. *)
Definition read (mem : Memory) (p n : nat) : list string :=
  firstn n (skipn p mem).

(** [mem] with [cells] written from address [p] on. *)
Definition write (mem : Memory) (p : nat) (cells : list string) : Memory :=
  firstn p mem ++ cells ++ skipn (p + length cells) mem.

(** A slice header as Go keeps it: the address of the first cell, the
    length and the capacity.  Two headers may cover common cells. *)
Record Span := mkSpan { span_ptr : nat; span_len : nat; span_cap : nat }.

(** [TerraformFileConfig], with the memory its three line slices point
    into.  [Flags] holds the flags that have been set, in the order
    [flag.Visit] presents them (sorted by name). *)
Record TerraformFileConfig := mkReceiver {
  Flags : list Flag;
  ListFlags : list string;
  MapFlags : list string;
  cells : Memory;
  pre_span : Span;
  body_span : Span;
  post_span : Span;
  BodyPrefix : string
}.

(** [c.PreLines]: the elements of the header lines. *)
Definition PreLines (c : TerraformFileConfig) : list string :=
  read (cells c) (span_ptr (pre_span c)) (span_len (pre_span c)).

(** [c.BodyLines]: its array is the run of cells from its first cell up
    to its capacity. *)
Definition BodyLines (c : TerraformFileConfig) : Slice :=
  mkSlice (read (cells c) (span_ptr (body_span c)) (span_cap (body_span c)))
          (span_len (body_span c)).

(** [c.PostLines]: the elements of the footer lines. *)
Definition PostLines (c : TerraformFileConfig) : list string :=
  read (cells c) (span_ptr (post_span c)) (span_len (post_span c)).

(** The receiver a caller builds from three separate slices, the header
    and the footer being composite literals (no spare capacity): the
    three arrays lie one after the other in memory. *)
Definition mkConfig (flags : list Flag) (listFlags mapFlags : list string)
           (pre : list string) (body : Slice) (post : list string)
           (bodyPrefix : string) : TerraformFileConfig :=
  mkReceiver flags listFlags mapFlags
             (pre ++ arr body ++ post)
             (mkSpan 0 (length pre) (length pre))
             (mkSpan (length pre) (len body) (length (arr body)))
             (mkSpan (length pre + length (arr body)) (length post)
                     (length post))
             bodyPrefix.

(** [func (c *TerraformFileConfig) IsList(name string) bool] *)
Fixpoint mem_name (names : list string) (name : string) : bool :=
  match names with
  | [] => false
  | n :: rest => if String.eqb n name then true else mem_name rest name
  end.

Definition IsList (c : TerraformFileConfig) (name : string) : bool :=
  mem_name (ListFlags c) name.

(** [func (c *TerraformFileConfig) IsMap(name string) bool]: the source
    ranges over [c.ListFlags] here as well. *)
Definition IsMap (c : TerraformFileConfig) (name : string) : bool :=
  mem_name (ListFlags c) name.

(** The working slice [lines] of [Generate].  It starts as a copy of the
    header of [c.BodyLines], hence on the same array ([Shared n]: the
    first [n] cells of that array); an [append] beyond the capacity moves
    it to an array of its own ([Owned l]), which nothing else refers to,
    so only its elements are kept. *)
Inductive Lines :=
| Shared (n : nat)
| Owned (l : list string).

(** The state the closure passed to [c.Flags.Visit] works on: the array
    behind [c.BodyLines], and the captured variables [lines],
    [listValues], [mapValues] and [errs]. *)
Record GenState := mkGenState {
  backing : list string;
  lines : Lines;
  listValues : gomap (list string);
  mapValues : gomap (gomap string);
  errs : list string
}.

(** The elements of [lines]. *)
Definition view (st : GenState) : list string :=
  match lines st with
  | Shared n => firstn n (backing st)
  | Owned l => l
  end.

(** Index of the first line that contains [name]
    ([for i, l := range lines { if strings.Contains(l, name) ... break]). *)
Fixpoint find_line (name : string) (ls : list string) : option nat :=
  match ls with
  | [] => None
  | l :: rest =>
      if Strings.Contains l name then Some 0
      else option_map S (find_line name rest)
  end.

(** The three statements of the removal, at index [i]:
    [copy(lines[i:], lines[i+1:])], [lines[len(lines)-1] = EmptyString],
    [lines = lines[:len(lines)-1]]. *)
Definition remove_line (i : nat) (st : GenState) : GenState :=
  match lines st with
  | Shared n =>
      mkGenState (store (n - 1) EmptyString (copy_down i n (backing st)))
                 (Shared (n - 1))
                 (listValues st) (mapValues st) (errs st)
  | Owned l =>
      let n := length l in
      mkGenState (backing st)
                 (Owned (firstn (n - 1) (store (n - 1) EmptyString (copy_down i n l))))
                 (listValues st) (mapValues st) (errs st)
  end.

(** [lines = append(lines, x)]: in place while the capacity allows it,
    into a fresh array otherwise. *)
Definition append_line (x : string) (st : GenState) : GenState :=
  match lines st with
  | Shared n =>
      if Nat.ltb n (length (backing st))
      then mkGenState (store n x (backing st)) (Shared (S n))
                      (listValues st) (mapValues st) (errs st)
      else mkGenState (backing st) (Owned (firstn n (backing st) ++ [x]))
                      (listValues st) (mapValues st) (errs st)
  | Owned l =>
      mkGenState (backing st) (Owned (l ++ [x]))
                 (listValues st) (mapValues st) (errs st)
  end.

Definition set_listValues (m : gomap (list string)) (st : GenState) :=
  mkGenState (backing st) (lines st) m (mapValues st) (errs st).
Definition set_mapValues (m : gomap (gomap string)) (st : GenState) :=
  mkGenState (backing st) (lines st) (listValues st) m (errs st).
Definition add_err (e : string) (st : GenState) :=
  mkGenState (backing st) (lines st) (listValues st) (mapValues st)
             (errs st ++ [e]).

Definition equals_sign : ascii := "="%char.

Section Generate.
  (** [json.Marshal] on a Go string: its JSON string literal. *)
  Variable json_Marshal : string -> string.
  (** [printer.Format] of the HCL library: the formatted bytes, or the
      message of the error it returns. *)
  Variable printer_Format : string -> string + string.
  (** The order in which a [range] over a map yields its entries, which
      the language leaves to the runtime. *)
  Variable range_order : forall V : Type, gomap V -> gomap V.

  (** The line a scalar flag contributes:
      [fmt.Sprintf("%s = %s", f.Name, string(v))]. *)
Definition scalar_line (f : Flag) : string :=
    Name f ++ " = " ++ json_Marshal (Value f).

  (** The body of the closure passed to [c.Flags.Visit]. *)
Definition visit (c : TerraformFileConfig) (st : GenState) (f : Flag)
    : GenState :=
    let st :=
      match find_line (Name f) (view st) with
      | Some i => remove_line i st
      | None => st
      end in
    if IsList c (Name f) then
      let vals :=
        match map_get (listValues st) (Name f) with
        | Some v => v
        | None => []
        end in
      set_listValues (map_set (listValues st) (Name f) (vals ++ [Value f])) st
    else if IsList c (Name f) then
      let value := Value f in
      let kv := Strings.Split value equals_sign in
      if Nat.ltb (length kv) 2 then
        add_err ("Could not parse '" ++ value
                 ++ "': Expected key=value format") st
      else
        let vals :=
          match map_get (mapValues st) (Name f) with
          | Some v => v
          | None => []
          end in
        set_mapValues
          (map_set (mapValues st) (Name f)
                   (map_set vals (nth 0 kv EmptyString) (nth 1 kv EmptyString))) st
    else
      append_line (scalar_line f) st.

  (** [c.Flags.Visit(func ...)]. *)
Definition visit_all (c : TerraformFileConfig) (st : GenState) : GenState :=
    fold_left (visit c) (Flags c) st.

  (** "Then expand the lists". *)
Definition expand_list (st : GenState) (entry : string * list string)
    : GenState :=
    let '(varName, list) := entry in
    let st := append_line EmptyString st in
    let st := append_line (varName ++ " = [") st in
    let st :=
      fold_left (fun st item =>
                   append_line ("  " ++ json_Marshal item ++ ",") st)
                list st in
    append_line "]" st.

  (** "Then expand the maps". *)
Definition expand_map (st : GenState) (entry : string * gomap string)
    : GenState :=
    let '(varName, list) := entry in
    let st := append_line EmptyString st in
    let st := append_line (varName ++ " = {") st in
    let st :=
      fold_left (fun st kv =>
                   append_line ("  " ++ fst kv ++ " = "
                                ++ json_Marshal (snd kv)) st)
                (range_order _ list) st in
    append_line "}" st.

  (** The state [Generate] starts from: [var lines []string = c.BodyLines]
      and two empty maps. *)
Definition init_state (c : TerraformFileConfig) : GenState :=
    mkGenState (arr (BodyLines c)) (Shared (len (BodyLines c))) [] [] [].

  (** Everything [Generate] does before "Compose all lines". *)
Definition merge (c : TerraformFileConfig) : GenState :=
    let st := visit_all c (init_state c) in
    let st := fold_left expand_list (range_order _ (listValues st)) st in
    fold_left expand_map (range_order _ (mapValues st)) st.

  (** The slice [allLines] of "Compose all lines".  It starts as
      [c.PreLines], hence on that array ([InPre n]: [n] cells from the
      first cell of [c.PreLines]); an [append] beyond the capacity of
      [c.PreLines] moves it to an array of its own ([Fresh l]). *)
Inductive Assembled :=
  | InPre (n : nat)
  | Fresh (l : list string).

  (** The elements of [allLines]. *)
Definition assembled_elems (c : TerraformFileConfig) (mem : Memory)
           (a : Assembled) : list string :=
    match a with
    | InPre n => read mem (span_ptr (pre_span c)) n
    | Fresh l => l
    end.

  (** [allLines = append(allLines, xs...)]: in place, into the spare cells
      of the array of [c.PreLines], while its capacity allows it; into a
      fresh array otherwise. *)
Definition append_all (c : TerraformFileConfig) (xs : list string)
           (s : Memory * Assembled) : Memory * Assembled :=
    match snd s with
    | InPre n =>
        if Nat.leb (n + length xs) (span_cap (pre_span c))
        then (write (fst s) (span_ptr (pre_span c) + n) xs,
              InPre (n + length xs))
        else (fst s, Fresh (read (fst s) (span_ptr (pre_span c)) n ++ xs))
    | Fresh l => (fst s, Fresh (l ++ xs))
    end.

  (** The memory once the merge is over: the array of [c.BodyLines] holds
      what the merge left in it. *)
Definition memory_after_merge (c : TerraformFileConfig) (st : GenState)
    : Memory :=
    write (cells c) (span_ptr (body_span c)) (backing st).

  (** The elements of [lines] as memory holds them. *)
Definition lines_in (c : TerraformFileConfig) (mem : Memory)
           (st : GenState) : list string :=
    match lines st with
    | Shared n => read mem (span_ptr (body_span c)) n
    | Owned l => l
    end.

  (** "Compose all lines": three appends, each reading its argument from
      memory as the appends before it left it.
      [allLines := append(c.PreLines, c.BodyLines...)] *)
Definition after_body (c : TerraformFileConfig) (st : GenState)
    : Memory * Assembled :=
    append_all c
      (read (memory_after_merge c st) (span_ptr (body_span c))
            (span_len (body_span c)))
      (memory_after_merge c st, InPre (span_len (pre_span c))).

  (** [allLines = append(allLines, lines...)] *)
Definition after_lines (c : TerraformFileConfig) (st : GenState)
    : Memory * Assembled :=
    append_all c (lines_in c (fst (after_body c st)) st) (after_body c st).

  (** [allLines = append(allLines, c.PostLines...)] *)
Definition after_post (c : TerraformFileConfig) (st : GenState)
    : Memory * Assembled :=
    append_all c
      (read (fst (after_lines c st)) (span_ptr (post_span c))
            (span_len (post_span c)))
      (after_lines c st).

  (** The elements of [allLines] and the memory at the end. *)
Definition compose (c : TerraformFileConfig) (st : GenState)
    : list string * Memory :=
    (assembled_elems c (fst (after_post c st)) (snd (after_post c st)),
     fst (after_post c st)).

  (** The receiver once the call is over: no header is assigned, the
      cells may have been written. *)
Definition receiver_after (c : TerraformFileConfig) (st : GenState)
    : TerraformFileConfig :=
    mkReceiver (Flags c) (ListFlags c) (MapFlags c)
               (snd (compose c st))
               (pre_span c) (body_span c) (post_span c) (BodyPrefix c).

  (** The lines that are joined into the text. *)
Definition allLines (c : TerraformFileConfig) : list string :=
    fst (compose c (merge c)).

  (** What [Generate] returns: [(content, nil)] or [(nil, err)]. *)
Inductive GenResult :=
  | GenOk (content : string)
  | GenErr (err : string).

  (** [func (c *TerraformFileConfig) Generate() ([]byte, error)], together
      with the receiver as the call leaves it. *)
Definition Generate (c : TerraformFileConfig)
    : GenResult * TerraformFileConfig :=
    let content := Strings.Join (allLines c) newline in
    (match printer_Format content with
     | inl content => GenOk content
     | inr err => GenErr ("Could not format output: " ++ err)
     end,
     receiver_after c (merge c)).

End Generate.

End Tfgen.

(** ** [main.go] *)
Module Router.

(** The message of a Go [error] ([err.Error()]); a nil error is [None]. *)
Definition error := string.

(** How a run of the process ends before [main] returns: [FatalError],
    [os.Exit] or a run-time panic. *)
Inductive Halt :=
| Fatal (msg : error)
| Exit (code : nat)
| Panic (what : string).

(** What the router itself does that can be seen from outside: what it
    prints and which collaborator it calls.  A plugin is named by
    [GetName()], a command by [GetName()]. *)
Inductive Event :=
| Println (text : string)
| Printf (format : string) (args : list string)
| PrintInfo (format : string) (args : list string)
| ShowHelp
| Handle (command : string) (args : list string)
| IsUsed (plugin : string)
| BeforeRun (plugin : string) (isInit : bool)
| Invoke (args : list string)
| AfterRun (plugin : string) (err : option error)
| ReloadTerraformProject
| CompleteUpgrade (path : string)
| PerformUpgrade.

Section Process.
  (** The state outside the process that the collaborators read and
      change: the working directory, the downloaded tool, the network. *)
  Variable World : Type.

  (** A computation of the process: from a world to the events emitted,
      the world reached, and a value or the way the process ended. *)
Definition M (A : Type) : Type := World -> list Event * World * (A + Halt).

Definition ret {A} (a : A) : M A := fun w => ([], w, inl a).

Definition bind {A B} (m : M A) (k : A -> M B) : M B :=
    fun w =>
      match m w with
      | (t, w', inl a) =>
          match k a w' with
          | (t', w'', r) => (t ++ t', w'', r)
          end
      | (t, w', inr h) => (t, w', inr h)
      end.

Definition emit (e : Event) : M unit := fun w => ([e], w, inl tt).
Definition halt {A} (h : Halt) : M A := fun w => ([], w, inr h).

  (** A collaborator call that changes the world and may fail. *)
Definition call (f : World -> option error * World) : M (option error) :=
    fun w => let '(r, w') := f w in ([], w', inl r).

  (** A collaborator query. *)
Definition ask {A} (f : World -> A) : M A := fun w => ([], w, inl (f w)).

  (** Modelled from the spec: [FatalError], of the [utils] package, is not
      in the two source files; the specification's fatal severity "prints
      message, terminates process with non-zero status". *)
Definition FatalError {A} (err : error) : M A := halt (Fatal err).

  (** [if err != nil { FatalError(err) }]. *)
Definition check (r : option error) : M unit :=
    match r with
    | Some err => FatalError err
    | None => ret tt
    end.
End Process.

Arguments ret {World A} a.
Arguments bind {World A B} m k.
Arguments emit {World} e.
Arguments halt {World A} h.
Arguments call {World} f.
Arguments ask {World A} f.
Arguments FatalError {World A} err.
Arguments check {World} r.

Declare Scope proc_scope.
Delimit Scope proc_scope with proc.
Notation "x <- m ;; k" := (bind m (fun x => k))
  (at level 61, m at next level, right associativity) : proc_scope.
Notation "m ;; k" := (bind m (fun _ => k))
  (at level 61, right associativity) : proc_scope.

Definition trace {World A} (r : list Event * World * (A + Halt)) : list Event :=
  fst (fst r).
Definition world {World A} (r : list Event * World * (A + Halt)) : World :=
  snd (fst r).
Definition outcome {World A} (r : list Event * World * (A + Halt)) : A + Halt :=
  snd r.

(** A [Command] descriptor of a plugin. *)
Record Command (World : Type) := mkCommand {
  cmd_GetName : string;
  cmd_GetDescription : string;
  cmd_Handle : list string -> World -> option error * World
}.
Arguments cmd_GetName {World} c.
Arguments cmd_GetDescription {World} c.
Arguments cmd_Handle {World} c args w.

(** The [Plugin] interface. *)
Record Plugin (World : Type) := mkPlugin {
  GetName : string;
  GetCommands : list (Command World);
  plugin_IsUsed : World -> (bool * option error) * World;
  plugin_BeforeRun : bool -> World -> option error * World;
  plugin_AfterRun : option error -> World -> option error * World
}.
Arguments GetName {World} p.
Arguments GetCommands {World} p.
Arguments plugin_IsUsed {World} p w.
Arguments plugin_BeforeRun {World} p isInit w.
Arguments plugin_AfterRun {World} p err w.

(** The sandbox, the wrapper of the external tool and the upgrade helpers
    of the [utils] package, as [main.go] uses them. *)
Record Collaborators (World Version : Type) := mkCollaborators {
  os_Getwd : World -> string + error;
  OpenSandbox : string -> World -> option error * World;
  HasTerraform : World -> bool;
  GetTerraform : World -> option error * World;
  HasTerraformFiles : World -> bool + error;
  sandbox_ReloadTerraformProject : World -> option error * World;
  tf_Invoke : list string -> World -> option error * World;
  RequiredTerraformVersionPrefix : string;
  buildVersion : string;
  semver_MustParse : string -> option Version;
  version_Compare : Version -> Version -> comparison;
  version_String : Version -> string;
  GetLatestVersion : World -> (Version + error) * World;
  utils_PerformUpgrade : Version -> World -> option error * World;
  utils_CompleteUpgrade : string -> World -> World
}.
Arguments os_Getwd {World Version} c w.
Arguments OpenSandbox {World Version} c cwd w.
Arguments HasTerraform {World Version} c w.
Arguments GetTerraform {World Version} c w.
Arguments HasTerraformFiles {World Version} c w.
Arguments sandbox_ReloadTerraformProject {World Version} c w.
Arguments tf_Invoke {World Version} c args w.
Arguments RequiredTerraformVersionPrefix {World Version} c.
Arguments buildVersion {World Version} c.
Arguments semver_MustParse {World Version} c s.
Arguments version_Compare {World Version} c v1 v2.
Arguments version_String {World Version} c v.
Arguments GetLatestVersion {World Version} c w.
Arguments utils_PerformUpgrade {World Version} c latest w.
Arguments utils_CompleteUpgrade {World Version} c path w.

(** [var knownTerraformCommands []string]. *)
Definition knownTerraformCommands : list string :=
  [ "apply"; "console"; "destroy"; "env"; "fmt"; "get"; "graph"; "import";
    "init"; "output"; "plan"; "providers"; "push"; "refresh"; "show";
    "taint"; "untaint"; "validate"; "version"; "workspace"; "0.12checklist";
    "debug"; "force-unlock"; "state" ].

(** [func shouldShowHelp(args []string) bool]; [main] does not call it. *)
Definition shouldShowHelp (args : list string) : bool :=
  existsb (fun arg => Strings.Contains arg "help") args.

(** "Check if we were invoked a valid terraform command": some argument
    after the program name equals some known command. *)
Definition isTerraformCommand (os_Args : list string) : bool :=
  existsb (fun cmd => existsb (fun arg => String.eqb arg cmd) (tl os_Args))
          knownTerraformCommands.

(** "Ignore flags until we find a command": the loop over
    [i := 1; i < len(os.Args); i++], here over the arguments from index
    [i] on.  The result is [(cmd_i, cmd_n)], [(0, "")] when every argument
    starts with a dash. *)
Fixpoint find_command (i : nat) (args : list string) : nat * string :=
  match args with
  | [] => (0, EmptyString)
  | arg :: rest =>
      if Strings.HasPrefix arg "-" then find_command (S i) rest
      else (i, arg)
  end.

Section Main.
  Context {World Version : Type}.
  Variable env : Collaborators World Version.
  (** [var plugins []Plugin]. *)
  Variable plugins : list (Plugin World).

  Local Open Scope proc_scope.

  (** [func showMissingTerraformHelp()]. *)
Definition showMissingTerraformHelp : M World unit :=
    emit (Println "Your system does not have terraform installed, or it's version is not") ;;
    emit (Printf "compatible with our %sx requirements. This means we cannot show you\n"
                 [RequiredTerraformVersionPrefix env]) ;;
    emit (Println "the terraform help screen. ") ;;
    emit (Println EmptyString) ;;
    emit (Println "This tool will automatically download the correct terraform version and") ;;
    emit (Println "place it in your current project directory when you try to use the") ;;
    emit (Println "following commands for the first time:").

  (** The [Printf] of one command of the listing. *)
Definition command_line (cmd : Command World) : Event :=
    Printf "    %-18s %s\n" [cmd_GetName cmd; cmd_GetDescription cmd].

  (** The lines the two loops of [showPluginHelp] print. *)
Definition command_listing : list Event :=
    flat_map (fun plugin => map command_line (GetCommands plugin)) plugins.

Fixpoint emit_all (es : list Event) : M World unit :=
    match es with
    | [] => ret tt
    | e :: rest => emit e ;; emit_all rest
    end.

  (** [func showPluginHelp()]. *)
Definition showPluginHelp (arg0 : string) : M World unit :=
    emit (Println EmptyString) ;;
    emit (Println "DC/OS Commands:") ;;
    emit (Printf "    %-18s %s %s\n"
                 ["wheels-version"; "Check the version of"; arg0]) ;;
    emit (Printf "    %-18s %s %s\n"
                 ["wheels-upgrade"; "Upgrade to the latest version of"; arg0]) ;;
    emit_all command_listing.

  (** [func showHelp(sandbox *ProjectSandbox)]. *)
Definition showHelp (arg0 : string) : M World unit :=
    emit ShowHelp ;;
    has <- ask (HasTerraform env) ;;
    (if has : bool then
       err <- call (GetTerraform env) ;;
       check err ;;
       emit (Invoke []) ;;
       _ <- call (tf_Invoke env []) ;;
       ret tt
     else showMissingTerraformHelp) ;;
    showPluginHelp arg0 ;;
    halt (Exit 1).

  (** "Pre-run". *)
Fixpoint pre_run (ps : list (Plugin World)) (isInit : bool) : M World unit :=
    match ps with
    | [] => ret tt
    | plugin :: rest =>
        emit (BeforeRun (GetName plugin) isInit) ;;
        err <- call (plugin_BeforeRun plugin isInit) ;;
        match err with
        | Some e =>
            FatalError ("Could not start " ++ GetName plugin ++ ": " ++ e)%string
        | None => pre_run rest isInit
        end
    end.

  (** "Post-run": the message is built from [err], the result of the
      delegated run, whose [Error] method cannot be called when it is
      nil. *)
Fixpoint post_run (ps : list (Plugin World)) (err : option error)
    : M World unit :=
    match ps with
    | [] => ret tt
    | plugin :: rest =>
        emit (AfterRun (GetName plugin) err) ;;
        perr <- call (plugin_AfterRun plugin err) ;;
        match perr with
        | Some _ =>
            match err with
            | Some e =>
                FatalError ("Could not finalize " ++ GetName plugin ++ ": " ++ e)%string
            | None => halt (Panic "invalid memory address or nil pointer dereference")
            end
        | None => post_run rest err
        end
    end.

  (** [func invokeTerraform(sandbox, tf, plugins, args)]. *)
Definition invokeTerraform (ps : list (Plugin World)) (args : list string)
    : M World unit :=
    let isInit := existsb (fun arg => String.eqb arg "init") args in
    pre_run ps isInit ;;
    emit (Invoke args) ;;
    err <- call (tf_Invoke env args) ;;
    post_run ps err.

  (** [func loadPlugins(sandbox *ProjectSandbox) []Plugin], the loop from
      the plugin [ps] on with [loadedPlugins] as accumulated so far. *)
Fixpoint loadPlugins_from (ps loadedPlugins : list (Plugin World))
    : M World (list (Plugin World)) :=
    match ps with
    | [] => ret loadedPlugins
    | plugin :: rest =>
        emit (IsUsed (GetName plugin)) ;;
        fun w =>
          let '(used, err, w') := plugin_IsUsed plugin w in
          (check err ;;
           if used : bool then
             emit (PrintInfo "Using plugin %s" [GetName plugin]) ;;
             loadPlugins_from rest (loadedPlugins ++ [plugin])
           else loadPlugins_from rest loadedPlugins) w'
    end.

Definition loadPlugins : M World (list (Plugin World)) :=
    loadPlugins_from plugins [].

  (** "Early upgrade checks": [true] when one of the three reserved
      commands was run and [main] returns. *)
Definition early_upgrade_checks (os_Args : list string) : M World bool :=
    if Nat.ltb 1 (length os_Args) then
      let cmd := nth 1 os_Args EmptyString in
      if String.eqb cmd "wheels-complete-upgrade" then
        emit (PrintInfo "🍺 Upgraded to latest version" []) ;;
        match nth_error os_Args 2 with
        | Some path =>
            emit (CompleteUpgrade path) ;;
            (fun w => ([], utils_CompleteUpgrade env path w, inl true))
        | None => halt (Panic "index out of range")
        end
      else if String.eqb cmd "wheels-version" then
        emit (PrintInfo "You are using terraform-wheels version %s"
                        [buildVersion env]) ;;
        ret true
      else if String.eqb cmd "wheels-upgrade" then
        match semver_MustParse env (buildVersion env) with
        | None => halt (Panic "semver.MustParse")
        | Some ver =>
            fun w =>
              match GetLatestVersion env w with
              | (inr err, w') => FatalError err w'
              | (inl latest, w') =>
                  (match version_Compare env latest ver with
                   | Gt =>
                       emit (PrintInfo "Upgrading from %s to %s"
                               [buildVersion env; version_String env latest]) ;;
                       emit PerformUpgrade ;;
                       err <- call (utils_PerformUpgrade env latest) ;;
                       check err ;;
                       ret true
                   | _ =>
                       emit (PrintInfo "You are running the latest released version" []) ;;
                       ret true
                   end) w'
              end
        end
      else ret false
    else ret false.

  (** The first command of the registry named [name]: the two loops of
      "Check if this is a plugin command". *)
Fixpoint find_in_commands (cmds : list (Command World)) (name : string)
    : option (Command World) :=
    match cmds with
    | [] => None
    | cmd :: rest =>
        if String.eqb (cmd_GetName cmd) name then Some cmd
        else find_in_commands rest name
    end.

Fixpoint find_plugin_command (ps : list (Plugin World)) (name : string)
    : option (Command World) :=
    match ps with
    | [] => None
    | plugin :: rest =>
        match find_in_commands (GetCommands plugin) name with
        | Some cmd => Some cmd
        | None => find_plugin_command rest name
        end
    end.

  (** The body run for the matching plugin command, up to its [return]. *)
Definition run_plugin_command (os_Args : list string) (hasTfFiles : bool)
             (cmd : Command World) : M World unit :=
    err <- call (GetTerraform env) ;;
    check err ;;
    emit (Handle (cmd_GetName cmd) (skipn 2 os_Args)) ;;
    err <- call (cmd_Handle cmd (skipn 2 os_Args)) ;;
    check err ;;
    now <- ask (HasTerraformFiles env) ;;
    match now with
    | inr err => FatalError err
    | inl nowHasTfFiles =>
        if negb hasTfFiles && nowHasTfFiles then
          emit (PrintInfo "Terraform project created, initializing now" []) ;;
          emit ReloadTerraformProject ;;
          err <- call (sandbox_ReloadTerraformProject env) ;;
          check err ;;
          loadedPlugins <- loadPlugins ;;
          invokeTerraform loadedPlugins ["init"]
        else ret tt
    end.

  (** "Initialize terraform now" and "Forward to terraform". *)
Definition forward_to_terraform (os_Args : list string) (hasTfFiles : bool)
    : M World unit :=
    err <- call (GetTerraform env) ;;
    check err ;;
    loadedPlugins <- loadPlugins ;;
    invokeTerraform loadedPlugins (tl os_Args) ;;
    if negb hasTfFiles then
      let arg0 := nth 0 os_Args EmptyString in
      emit (Println EmptyString) ;;
      emit (Printf "Consider running %s add-aws-cluster if you are trying to\n" [arg0]) ;;
      emit (Printf "launch a DC/OS cluster. Or %s -help to see all options\n" [arg0])
    else ret tt.

  (** [main] from "Check the sandbox status" on. *)
Definition dispatch (os_Args : list string) : M World unit :=
    let arg0 := nth 0 os_Args EmptyString in
    has <- ask (HasTerraformFiles env) ;;
    match has with
    | inr err => FatalError err
    | inl hasTfFiles =>
        if Nat.ltb 1 (length os_Args) then
          let isTerraformCommand := isTerraformCommand os_Args in
          let '(cmd_i, cmd_n) := find_command 1 (tl os_Args) in
          if Nat.eqb cmd_i 0 then showHelp arg0
          else
            match find_plugin_command plugins cmd_n with
            | Some cmd => run_plugin_command os_Args hasTfFiles cmd
            | None =>
                if negb isTerraformCommand then showHelp arg0
                else forward_to_terraform os_Args hasTfFiles
            end
        else forward_to_terraform os_Args hasTfFiles
    end.

  (** [func main()], on the argument vector [os.Args]. *)
Definition main (os_Args : list string) : M World unit :=
    let arg0 := nth 0 os_Args EmptyString in
    done <- early_upgrade_checks os_Args ;;
    if done : bool then ret tt
    else
      fun w =>
        match os_Getwd env w with
        | inr err => FatalError err w
        | inl cwd =>
            (err <- call (OpenSandbox env cwd) ;;
             check err ;;
             if Nat.leb (length os_Args) 1
                || Strings.Contains (nth 1 os_Args EmptyString) "help"
             then showHelp arg0
             else dispatch os_Args) w
        end.

End Main.

End Router.

(** ** The merge read on plain lists

    What [Generate] computes in [lines], written on lists without arrays
    or sharing.  It is compared below with the merge of the source. *)
Module MergedLines.
Import Tfgen.

(** A flag rendered by scalar assignment according to the data model: one
    named neither in [ListFlags] nor in [MapFlags]. *)
Definition is_scalar (c : TerraformFileConfig) (f : Flag) : bool :=
  negb (mem_name (ListFlags c) (Name f))
  && negb (mem_name (MapFlags c) (Name f)).

(** The working slice lies within its array. *)
Definition wf (st : GenState) : Prop :=
  match lines st with
  | Shared n => n <= length (backing st)
  | Owned _ => True
  end.

(** A slice header is well formed: its length is within its capacity. *)
Definition wf_slice (s : Slice) : Prop := len s <= length (arr s).

(** A header lies within memory: its length within its capacity, its
    capacity within the cells there are. *)
Definition wf_span (mem : Memory) (s : Span) : Prop :=
  span_len s <= span_cap s /\ span_ptr s + span_cap s <= length mem.

(** The three headers of a receiver lie within its memory. *)
Definition wf_receiver (c : TerraformFileConfig) : Prop :=
  wf_span (cells c) (pre_span c)
  /\ wf_span (cells c) (body_span c)
  /\ wf_span (cells c) (post_span c).

(** [allLines] has not lost an element of [c.PreLines]. *)
Definition beyond_header (c : TerraformFileConfig) (a : Assembled) : Prop :=
  match a with
  | InPre n => span_len (pre_span c) <= n
  | Fresh _ => True
  end.

(** The run of [n] cells from [a] and the run of [m] cells from [b] have
    no cell in common. *)
Definition apart (a n b m : nat) : Prop :=
  n = 0 \/ m = 0 \/ a + n <= b \/ b + m <= a.

(** The array of [c.BodyLines] shares no cell with the array of
    [c.PreLines] nor with the elements of [c.PostLines], and the spare
    cells of the array of [c.PreLines] hold no element of
    [c.PostLines]. *)
Definition separate (c : TerraformFileConfig) : Prop :=
  apart (span_ptr (body_span c)) (span_cap (body_span c))
        (span_ptr (pre_span c)) (span_cap (pre_span c))
  /\ apart (span_ptr (body_span c)) (span_cap (body_span c))
           (span_ptr (post_span c)) (span_len (post_span c))
  /\ apart (span_ptr (pre_span c) + span_len (pre_span c))
           (span_cap (pre_span c) - span_len (pre_span c))
           (span_ptr (post_span c)) (span_len (post_span c)).

(** The removal loop at the head of the closure of [Generate]. *)
Definition after_removal (name : string) (st : GenState) : GenState :=
  match find_line name (view st) with
  | Some i => remove_line i st
  | None => st
  end.

(** A [range] over a map yields each of its entries once, in some order. *)
Definition fair_order (ro : forall V : Type, gomap V -> gomap V) : Prop :=
  forall (V : Type) (m : gomap V), Permutation (ro V m) m.


(** No line of [ls] contains [name]. *)
Definition absent (name : string) (ls : list string) : Prop :=
  Forall (fun l => Strings.Contains l name = false) ls.

Section Lines.
  Variable json_Marshal : string -> string.
  Variable range_order : forall V : Type, gomap V -> gomap V.

  (** [ls] without its first line that contains [name]. *)
Definition remove_first (name : string) (ls : list string) : list string :=
    match find_line name ls with
    | Some i => drop_at i ls
    | None => ls
    end.

  (** One visited flag, on the lines and the accumulated list values. *)
Definition visit_lines (c : TerraformFileConfig)
             (acc : list string * gomap (list string)) (f : Flag)
    : list string * gomap (list string) :=
    let ls := remove_first (Name f) (fst acc) in
    let lv := snd acc in
    if IsList c (Name f) then
      let vals :=
        match map_get lv (Name f) with
        | Some v => v
        | None => []
        end in
      (ls, map_set lv (Name f) (vals ++ [Value f]))
    else (ls ++ [scalar_line json_Marshal f], lv).

  (** The block of one list flag. *)
Definition list_block (entry : string * list string) : list string :=
    [EmptyString; (fst entry ++ " = [")%string]
      ++ map (fun item => ("  " ++ json_Marshal item ++ ",")%string) (snd entry)
      ++ ["]"%string].

  (** The merged lines for a body. *)
Definition merged_lines (c : TerraformFileConfig) (body : list string)
    : list string :=
    let acc := fold_left (visit_lines c) (Flags c) (body, []) in
    fst acc ++ flat_map list_block (range_order _ (snd acc)).
End Lines.

End MergedLines.

(** ** A small instance of the collaborators, to run the model on *)
Module Samples.
Import Tfgen Router.

(** The double quote character. *)
Definition dquote : string := String (ascii_of_nat 34) EmptyString.

(** A JSON string encoder for strings that need no escape: the string
    between double quotes, as [json.Marshal] gives for them. *)
Definition sample_json (s : string) : string := (dquote ++ s ++ dquote)%string.

(** A formatter that accepts every text and returns it unchanged. *)
Definition sample_format (text : string) : string + string := inl text.

(** A formatter that rejects every text. *)
Definition rejecting_format (text : string) : string + string :=
  inr "illegal char"%string.

(** Maps are ranged over in the order of insertion. *)
Definition sample_order (V : Type) (m : gomap V) : gomap V := m.

(** Two scalar flags over an empty body; [flag.Visit] presents ["ab"]
    before ["b"]. *)
Definition two_flags_config : TerraformFileConfig :=
  mkConfig [mkFlag "ab" "x"; mkFlag "b" "y"] [] [] [] (literal []) []
           EmptyString.

(** One scalar flag whose name occurs in the first line of the body. *)
Definition replace_config : TerraformFileConfig :=
  mkConfig [mkFlag "x" "2"] [] []
           ["module {"%string] (literal ["x = 1"; "y = 3"]%string)
           ["}"%string] EmptyString.

(** One flag declared as a map flag, with a value that has no equals
    sign, and with a value of the form key=value. *)
Definition labels_config (value : string) : TerraformFileConfig :=
  mkConfig [mkFlag "labels" value] [] ["labels"%string] [] (literal []) []
           EmptyString.



(** No flag; the header and the footer are cut from one slice
    [tmpl = {"module {", "}"}] as [tmpl[:1]] and [tmpl[1:]], the body is
    the literal [{"x = 1"}] in an array of its own. *)
Definition template_config : TerraformFileConfig :=
  mkReceiver [] [] [] ["module {"; "}"; "x = 1"]%string
             (mkSpan 0 1 2) (mkSpan 2 1 1) (mkSpan 1 1 1) EmptyString.

(** A world with one bit of state: do provisioning files exist. *)
Definition SampleWorld : Type := bool.

Definition sample_env : Collaborators SampleWorld nat :=
  mkCollaborators SampleWorld nat
    (fun _ => inl "/work"%string)
    (fun _ w => (None, w))
    (fun _ => true)
    (fun w => (None, w))
    (fun w => inl w)
    (fun w => (None, w))
    (fun _ w => (None, w))
    "0.11"%string
    "1.0.0"%string
    (fun _ => Some 1)
    Nat.compare
    (fun _ => "1.0.0"%string)
    (fun w => (inl 1, w))
    (fun _ w => (None, w))
    (fun _ w => w).

(** The same collaborators with an external tool whose run fails. *)
Definition failing_tool_env : Collaborators SampleWorld nat :=
  mkCollaborators SampleWorld nat
    (fun _ => inl "/work"%string)
    (fun _ w => (None, w))
    (fun _ => true)
    (fun w => (None, w))
    (fun w => inl w)
    (fun w => (None, w))
    (fun _ w => (Some "exit status 1"%string, w))
    "0.11"%string
    "1.0.0"%string
    (fun _ => Some 1)
    Nat.compare
    (fun _ => "1.0.0"%string)
    (fun w => (inl 1, w))
    (fun _ w => (None, w))
    (fun _ w => w).

(** A command whose handler writes the first provisioning file. *)
Definition add_service : Command SampleWorld :=
  mkCommand SampleWorld "add-service"%string "Add a service"%string
            (fun _ _ => (None, true)).

(** A plugin that is in use and whose hooks succeed. *)
Definition service_plugin : Plugin SampleWorld :=
  mkPlugin SampleWorld "service"%string [add_service]
           (fun w => (true, None, w))
           (fun _ w => (None, w))
           (fun _ w => (None, w)).

(** A plugin whose pre-hook fails. *)
Definition agent_plugin : Plugin SampleWorld :=
  mkPlugin SampleWorld "ssh-agent"%string []
           (fun w => (true, None, w))
           (fun _ w => (Some "no agent"%string, w))
           (fun _ w => (None, w)).

(** A plugin whose post-hook fails. *)
Definition provider_plugin : Plugin SampleWorld :=
  mkPlugin SampleWorld "provider"%string []
           (fun w => (true, None, w))
           (fun _ w => (None, w))
           (fun _ w => (Some "boom"%string, w)).

Definition sample_plugins : list (Plugin SampleWorld) := [service_plugin].

End Samples.

(** ** One more instance: a release newer than the build *)
Module Releases.
Import Router Samples.


End Releases.

(** ** The help text of the generator ([wrapLongLines], [printFlag]) *)
Module HelpText.
Import Tfgen Router.

(** Go's [int] on the 64-bit platforms the tool is built for: the value
    an arithmetic result wraps to. *)
Definition wrap64 (z : Z) : Z :=
  ((z + 2 ^ 63) mod 2 ^ 64 - 2 ^ 63)%Z.

(** [len(s)] of a Go string. *)
Definition len_string (s : string) : Z := Z.of_nat (String.length s).

(** A flag as the help printer reads it: [f.Name] and [f.Usage]. *)
Record FlagUsage := mkFlagUsage { flag_Name : string; flag_Usage : string }.

Section Wrap.
  (** [strings.Fields] and [strings.TrimSpace] of the Go library. *)
  Variable strings_Fields : string -> list string.
  Variable strings_TrimSpace : string -> string.

(** The loop of [wrapLongLines] over [words[1:]], with the variables
    [ret], [wrapped] and [spaceLeft]; its result is the list returned
    after the final [append]. *)
Fixpoint wrap_loop (lineWidth : Z) (words : list string) (ret : list string)
         (wrapped : string) (spaceLeft : Z) : list string :=
  match words with
  | [] => ret ++ [wrapped]
  | word :: rest =>
      if (spaceLeft <? wrap64 (len_string word + 1))%Z then
        wrap_loop lineWidth rest (ret ++ [wrapped]) word
                  (wrap64 (lineWidth - len_string word))
      else
        wrap_loop lineWidth rest ret (wrapped ++ " " ++ word)%string
                  (wrap64 (spaceLeft - wrap64 (1 + len_string word)))
  end.

(** [func wrapLongLines(text string, lineWidth int) []string]. *)
Definition wrapLongLines (text : string) (lineWidth : Z) : list string :=
  match strings_Fields (strings_TrimSpace text) with
  | [] => [text]
  | first :: rest =>
      wrap_loop lineWidth rest [] first
                (wrap64 (lineWidth - len_string first))
  end.

(** The body of the loop of [printFlag] for the line of index [i]. *)
Definition print_line (fname : string) (i : nat) (line : string)
  : list Event :=
  if Nat.eqb i 0 then
    if Nat.ltb 20 (String.length fname) then
      [Printf "  %s\n" [fname]; Printf "  %-20s %s\n" [EmptyString; line]]
    else [Printf "  %-20s %s\n" [fname; line]]
  else [Printf "  %-20s %s\n" [EmptyString; line]].

Fixpoint print_lines (fname : string) (i : nat) (lines : list string)
  : list Event :=
  match lines with
  | [] => []
  | line :: rest => print_line fname i line ++ print_lines fname (S i) rest
  end.

(** [func printFlag(f *flag.Flag)]: what it prints. *)
Definition printFlag (f : FlagUsage) : list Event :=
  let lines := wrapLongLines (flag_Usage f) 60 in
  let fname := ("-" ++ flag_Name f ++ "=")%string in
  Println EmptyString :: print_lines fname 0 lines.

(** [func (c *TerraformFileConfig) PrintOptionHelp()], on the flags
    [c.Flags.VisitAll] presents. *)
Definition PrintOptionHelp (defined : list FlagUsage) : list Event :=
  flat_map printFlag defined.
End Wrap.

(** The usage text a [Printf] of the second column carries. *)
Definition printed_text (e : Event) : list string :=
  match e with
  | Printf _ [_; line] => [line]
  | _ => []
  end.

(** The flag token a [Printf] carries in its first column or alone. *)
Definition printed_token (e : Event) : list string :=
  match e with
  | Printf _ [token] => [token]
  | Printf _ [token; _] =>
      if String.eqb token EmptyString then [] else [token]
  | _ => []
  end.

(** One space between words, as [wrapLongLines] joins them. *)
Definition unwords (words : list string) : string :=
  Strings.Join words " ".

(** [strings.Fields] for texts whose only separators are single
    spaces: the text cut at every space, empty pieces dropped. *)
Definition sample_Fields (text : string) : list string :=
  filter (fun w => negb (String.eqb w EmptyString))
         (Strings.Split text " "%char).

(** [strings.TrimSpace] for texts without leading or trailing space. *)
Definition sample_TrimSpace (text : string) : string := text.

End HelpText.

(** ** Notions used to state the routing properties *)
Module Routes.
Import Router.

(** The three commands [main] intercepts before it opens the sandbox. *)
Definition reserved (cmd : string) : bool :=
  String.eqb cmd "wheels-complete-upgrade"
  || String.eqb cmd "wheels-version"
  || String.eqb cmd "wheels-upgrade".

(** The effective command name of an argument vector (argument 0
    excluded): the [cmd_n] the scan of [main] ends with. *)
Definition effective_command (args : list string) : string :=
  snd (find_command 1 args).

(** [arg] does not start with a dash. *)
Definition is_command_token (arg : string) : bool :=
  negb (Strings.HasPrefix arg "-").

(** A run with the events [t0] in front. *)
Definition with_prefix {World A : Type} (t0 : list Event)
           (r : list Event * World * (A + Halt))
  : list Event * World * (A + Halt) :=
  (t0 ++ trace r, world r, outcome r).

(** Every event a computation emits, from any world, satisfies [P]. *)
Definition events_in {World A : Type} (P : Event -> Prop) (m : M World A)
  : Prop :=
  forall w, Forall P (trace (m w)).

(** Delegations to the external tool. *)
Definition is_invoke (e : Event) : bool :=
  match e with
  | Invoke _ => true
  | _ => false
  end.

Definition count_invokes (t : list Event) : nat :=
  length (filter is_invoke t).

(** An event other than a delegation. *)
Definition quiet (e : Event) : Prop := is_invoke e = false.

(** The events of the help screen: the marker, the tool's own help, and
    printed lines. *)
Definition help_event (e : Event) : Prop :=
  match e with
  | ShowHelp | Println _ | Printf _ _ => True
  | Invoke args => args = []
  | _ => False
  end.

(** The events of loading the plugins and of one lifecycle run that
    delegates [args]. *)
Definition lifecycle_event (args : list string) (e : Event) : Prop :=
  match e with
  | IsUsed _ | PrintInfo _ _ | BeforeRun _ _ | AfterRun _ _ => True
  | Invoke a => a = args
  | _ => False
  end.

(** The events of the passthrough path: a lifecycle run and the closing
    hint. *)
Definition passthrough_event (args : list string) (e : Event) : Prop :=
  match e with
  | Println _ | Printf _ _ => True
  | _ => lifecycle_event args e
  end.

(** The events of a plugin dispatch: one handler call with [hargs], the
    reload, and a lifecycle run of ["init"]. *)
Definition plugin_event (hargs : list string) (e : Event) : Prop :=
  match e with
  | Handle _ a => a = hargs
  | ReloadTerraformProject => True
  | _ => lifecycle_event ["init"%string] e
  end.

(** The events of the early upgrade checks. *)
Definition upgrade_event (e : Event) : Prop :=
  match e with
  | PrintInfo _ _ | CompleteUpgrade _ | PerformUpgrade => True
  | _ => False
  end.

(** Everything [main] can emit on the vector [os_Args]. *)
Definition main_event (os_Args : list string) (e : Event) : Prop :=
  match e with
  | ShowHelp | Println _ | Printf _ _ | PrintInfo _ _
  | CompleteUpgrade _ | PerformUpgrade | ReloadTerraformProject
  | IsUsed _ | BeforeRun _ _ | AfterRun _ _ => True
  | Handle _ a => a = skipn 2 os_Args
  | Invoke a => a = [] \/ a = ["init"%string] \/ a = tl os_Args
  end.

(** The hint [main] prints after a passthrough from a sandbox without
    provisioning files. *)
Definition closing_hint (arg0 : string) : list Event :=
  [ Println EmptyString;
    Printf "Consider running %s add-aws-cluster if you are trying to\n" [arg0];
    Printf "launch a DC/OS cluster. Or %s -help to see all options\n" [arg0] ].

(** The events of loading the plugins when the usage checks answer
    [used]: one check per plugin, and a notice for each plugin in use. *)
Definition usage_events {World : Type} (used : Plugin World -> bool)
           (ps : list (Plugin World)) : list Event :=
  flat_map (fun p =>
              IsUsed (GetName p)
              :: (if used p then [PrintInfo "Using plugin %s" [GetName p]]
                  else []))
           ps.

(** The pre-hook flag carried by an event, if it is a pre-hook call. *)
Definition carries_isInit (isInit : bool) (e : Event) : Prop :=
  match e with
  | BeforeRun _ b => b = isInit
  | _ => True
  end.

(** The early help test of [main], on the arguments after argument 0:
    [len(os.Args) <= 1 || strings.Contains(os.Args[1], "help")]. *)
Definition help_requested (args : list string) : bool :=
  match args with
  | [] => true
  | arg :: _ => Strings.Contains arg "help"
  end.

(** The four ways [main] can go once the sandbox is open. *)
Inductive Route (World : Type) :=
| ToUpgrade
| ToHelp
| ToPlugin (cmd : Command World)
| ToPassthrough.
Arguments ToUpgrade {World}.
Arguments ToHelp {World}.
Arguments ToPlugin {World} cmd.
Arguments ToPassthrough {World}.

(** The way [main] goes on the arguments [args] (argument 0 excluded),
    read off its tests in their order. *)
Definition route {World : Type} (plugins : list (Plugin World))
           (args : list string) : Route World :=
  if reserved (hd EmptyString args) then ToUpgrade
  else if help_requested args then ToHelp
  else
    let '(cmd_i, cmd_n) := find_command 1 args in
    if Nat.eqb cmd_i 0 then ToHelp
    else
      match find_plugin_command plugins cmd_n with
      | Some cmd => ToPlugin cmd
      | None =>
          if isTerraformCommand (EmptyString :: args) then ToPassthrough
          else ToHelp
      end.

Section HelpScreen.
  Context {World Version : Type}.
  Variable env : Collaborators World Version.
  Variable plugins : list (Plugin World).

  (** What [showMissingTerraformHelp] prints. *)
Definition missing_terraform_notice : list Event :=
    [ Println "Your system does not have terraform installed, or it's version is not";
      Printf "compatible with our %sx requirements. This means we cannot show you\n"
             [RequiredTerraformVersionPrefix env];
      Println "the terraform help screen. ";
      Println EmptyString;
      Println "This tool will automatically download the correct terraform version and";
      Println "place it in your current project directory when you try to use the";
      Println "following commands for the first time:" ].

  (** What [showPluginHelp] prints: the header, the two reserved commands,
      then every command of every plugin in registration order. *)
Definition plugin_help (arg0 : string) : list Event :=
    [ Println EmptyString;
      Println "DC/OS Commands:";
      Printf "    %-18s %s %s\n"
             ["wheels-version"; "Check the version of"; arg0];
      Printf "    %-18s %s %s\n"
             ["wheels-upgrade"; "Upgrade to the latest version of"; arg0] ]
      ++ command_listing plugins.
End HelpScreen.

End Routes.

(** * Properties of the generator *)

Import Tfgen MergedLines.

(** ** Arrays *)

Lemma store_prefix (n : nat) (x : string) (a : list string) :
  n <= length a -> firstn n (store n x a) = firstn n a.
Proof.
  intros Hn. unfold store.
  rewrite firstn_app, length_firstn, Nat.min_l by assumption.
  rewrite Nat.sub_diag, firstn_O, app_nil_r.
  rewrite firstn_firstn, Nat.min_id. reflexivity.
Qed.

Lemma store_cell (n : nat) (x : string) (a : list string) :
  n < length a -> store n x a = firstn n a ++ x :: skipn (S n) a.
Proof.
  intros Hn. unfold store. f_equal.
  destruct (skipn n a) as [|y rest] eqn:E.
  - apply (f_equal (@length string)) in E.
    rewrite length_skipn in E. simpl in E. lia.
  - f_equal. replace (S n) with (1 + n) by lia.
    rewrite <- skipn_skipn, E. reflexivity.
Qed.

Lemma store_next (n : nat) (x : string) (a : list string) :
  n < length a -> firstn (S n) (store n x a) = firstn n a ++ [x].
Proof.
  intros Hn. rewrite store_cell by assumption.
  rewrite firstn_app, length_firstn, Nat.min_l by lia.
  replace (S n - n) with 1 by lia.
  rewrite (firstn_all2 (n := S n) (firstn n a))
    by (rewrite length_firstn; lia).
  reflexivity.
Qed.

Lemma store_length (n : nat) (x : string) (a : list string) :
  length (store n x a) = length a.
Proof.
  unfold store. rewrite length_app.
  rewrite <- (firstn_skipn n a) at 3. rewrite length_app. f_equal.
  destruct (skipn n a); reflexivity.
Qed.

Lemma drop_at_firstn (i n : nat) (a : list string) :
  i < n ->
  drop_at i (firstn n a) = firstn i a ++ firstn (n - S i) (skipn (S i) a).
Proof.
  intros Hi. unfold drop_at.
  rewrite firstn_firstn, Nat.min_l by lia.
  rewrite skipn_firstn_comm. reflexivity.
Qed.

Lemma copy_down_shape (i n : nat) (a : list string) :
  i < n -> n <= length a ->
  copy_down i n a = drop_at i (firstn n a) ++ skipn (n - 1) a.
Proof.
  intros Hi Hn. unfold copy_down.
  rewrite drop_at_firstn by assumption. rewrite <- app_assoc. reflexivity.
Qed.

Lemma drop_at_length (i : nat) (l : list string) :
  i < length l -> length (drop_at i l) = length l - 1.
Proof.
  intros Hi. unfold drop_at.
  rewrite length_app, length_firstn, length_skipn. lia.
Qed.

(** The removal on an array: the cells below [n] lose cell [i], the cell
    [n-1] holds the empty string, the cells from [n] on are untouched. *)
Lemma removal_shape (i n : nat) (a : list string) :
  i < n -> n <= length a ->
  store (n - 1) EmptyString (copy_down i n a)
  = drop_at i (firstn n a) ++ EmptyString :: skipn n a.
Proof.
  intros Hi Hn.
  assert (Hd : length (drop_at i (firstn n a)) = n - 1).
  { rewrite drop_at_length; rewrite length_firstn; lia. }
  rewrite copy_down_shape by assumption.
  rewrite store_cell.
  - rewrite firstn_app, Hd, Nat.sub_diag, firstn_O, app_nil_r.
    rewrite firstn_all2 by lia. f_equal. f_equal.
    rewrite skipn_app, Hd.
    rewrite skipn_all2 by lia. rewrite app_nil_l.
    replace (S (n - 1) - (n - 1)) with 1 by lia.
    rewrite skipn_skipn. f_equal. lia.
  - rewrite length_app, Hd, length_skipn. lia.
Qed.

(** ** The working slice behaves as a list *)

Lemma view_append_line (x : string) (st : GenState) :
  wf st -> view (append_line x st) = view st ++ [x].
Proof.
  unfold wf, view, append_line. intros Hwf.
  destruct (lines st) as [n|l]; [|reflexivity].
  destruct (Nat.ltb n (length (backing st))) eqn:E; simpl.
  - apply Nat.ltb_lt in E. apply store_next. assumption.
  - reflexivity.
Qed.

Lemma wf_append_line (x : string) (st : GenState) :
  wf st -> wf (append_line x st).
Proof.
  unfold wf, append_line. intros Hwf.
  destruct (lines st) as [n|l]; [|exact I].
  destruct (Nat.ltb n (length (backing st))) eqn:E; simpl.
  - apply Nat.ltb_lt in E. rewrite store_length. lia.
  - exact I.
Qed.

Lemma view_remove_line (i : nat) (st : GenState) :
  wf st -> i < length (view st) ->
  view (remove_line i st) = drop_at i (view st).
Proof.
  unfold wf, view, remove_line. intros Hwf Hi.
  destruct (lines st) as [n|l]; simpl.
  - rewrite length_firstn in Hi.
    rewrite removal_shape by lia.
    rewrite firstn_app.
    rewrite drop_at_length; rewrite length_firstn; try lia.
    rewrite Nat.min_l by lia.
    rewrite Nat.sub_diag, firstn_O, app_nil_r.
    apply firstn_all2.
    rewrite drop_at_length; rewrite length_firstn; lia.
  - rewrite (removal_shape i (length l) l) by lia.
    rewrite firstn_all.
    rewrite firstn_app.
    rewrite drop_at_length by lia.
    rewrite Nat.sub_diag, firstn_O, app_nil_r.
    apply firstn_all2. rewrite drop_at_length; lia.
Qed.

Lemma wf_remove_line (i : nat) (st : GenState) :
  wf st -> wf (remove_line i st).
Proof.
  unfold wf, remove_line. intros Hwf.
  destruct (lines st) as [n|l]; simpl; [|exact I].
  rewrite store_length. unfold copy_down.
  rewrite !length_app, !length_firstn, !length_skipn. lia.
Qed.

(** ** Finding the first matching line *)

Lemma find_line_absent (name : string) (ls : list string) :
  absent name ls -> find_line name ls = None.
Proof.
  induction 1 as [|l ls Hl _ IH]; simpl; [reflexivity|].
  rewrite Hl, IH. reflexivity.
Qed.

Lemma find_line_split (name : string) (before : list string) (l : string)
      (after : list string) :
  absent name before -> Strings.Contains l name = true ->
  find_line name (before ++ l :: after) = Some (length before).
Proof.
  induction 1 as [|b before Hb _ IH]; simpl; intros Hl.
  - rewrite Hl. reflexivity.
  - rewrite Hb, IH by assumption. reflexivity.
Qed.

Lemma find_line_bound (name : string) (ls : list string) (i : nat) :
  find_line name ls = Some i -> i < length ls.
Proof.
  revert i. induction ls as [|l ls IH]; simpl; intros i H; [discriminate|].
  destruct (Strings.Contains l name).
  - inversion H. lia.
  - destruct (find_line name ls) as [j|]; [|discriminate].
    inversion H. specialize (IH j eq_refl). lia.
Qed.

Lemma find_line_found (name : string) (ls : list string) (i : nat) :
  find_line name ls = Some i ->
  exists before l after,
    ls = before ++ l :: after /\ length before = i
    /\ absent name before /\ Strings.Contains l name = true.
Proof.
  revert i. induction ls as [|l ls IH]; simpl; intros i H; [discriminate|].
  destruct (Strings.Contains l name) eqn:E.
  - inversion H. exists [], l, ls. repeat split; auto. constructor.
  - destruct (find_line name ls) as [j|]; [|discriminate].
    inversion H. destruct (IH j eq_refl) as (b & x & a & -> & <- & Hb & Hx).
    exists (l :: b), x, a. repeat split; auto. constructor; assumption.
Qed.

Lemma drop_at_split (before : list string) (l : string) (after : list string) :
  drop_at (length before) (before ++ l :: after) = before ++ after.
Proof.
  unfold drop_at.
  rewrite skipn_app, skipn_all2 by lia.
  replace (S (length before) - length before) with 1 by lia.
  rewrite firstn_app, Nat.sub_diag, firstn_all, firstn_O, app_nil_r.
  reflexivity.
Qed.

Lemma remove_first_absent (name : string) (ls : list string) :
  absent name ls -> remove_first name ls = ls.
Proof.
  intros H. unfold remove_first. rewrite find_line_absent by assumption.
  reflexivity.
Qed.

Lemma remove_first_split (name : string) (before : list string) (l : string)
      (after : list string) :
  absent name before -> Strings.Contains l name = true ->
  remove_first name (before ++ l :: after) = before ++ after.
Proof.
  intros Hb Hl. unfold remove_first.
  rewrite find_line_split by assumption. apply drop_at_split.
Qed.

(** ** One visited flag *)

Section VisitFacts.
  Variable json_Marshal : string -> string.
  Variable c : TerraformFileConfig.

Lemma after_removal_view (name : string) (st : GenState) :
    wf st -> view (after_removal name st) = remove_first name (view st).
  Proof.
    intros Hwf. unfold after_removal, remove_first.
    destruct (find_line name (view st)) as [i|] eqn:E; [|reflexivity].
    apply view_remove_line; [assumption|].
    eapply find_line_bound; eassumption.
  Qed.

Lemma after_removal_wf (name : string) (st : GenState) :
    wf st -> wf (after_removal name st).
  Proof.
    intros Hwf. unfold after_removal.
    destruct (find_line name (view st)); [apply wf_remove_line|]; assumption.
  Qed.

Lemma after_removal_maps (name : string) (st : GenState) :
    listValues (after_removal name st) = listValues st
    /\ mapValues (after_removal name st) = mapValues st
    /\ errs (after_removal name st) = errs st.
  Proof.
    unfold after_removal, remove_line.
    destruct (find_line name (view st)); [|auto].
    destruct (lines st); auto.
  Qed.

Lemma append_line_maps (x : string) (st : GenState) :
    listValues (append_line x st) = listValues st
    /\ mapValues (append_line x st) = mapValues st
    /\ errs (append_line x st) = errs st.
  Proof.
    unfold append_line. destruct (lines st) as [n|l]; [|auto].
    destruct (Nat.ltb n (length (backing st))); auto.
  Qed.

  (** The closure, with its removal loop named. *)
Lemma visit_unfold (st : GenState) (f : Flag) :
    visit json_Marshal c st f =
    let st' := after_removal (Name f) st in
    if IsList c (Name f) then
      set_listValues
        (map_set (listValues st') (Name f)
                 (match map_get (listValues st') (Name f) with
                  | Some v => v
                  | None => []
                  end ++ [Value f])) st'
    else append_line (scalar_line json_Marshal f) st'.
  Proof.
    unfold visit, after_removal. simpl.
    destruct (IsList c (Name f)); reflexivity.
  Qed.

  (** The map branch of the closure is never taken: no visit touches
      [mapValues] or [errs]. *)
Lemma visit_maps_errs (st : GenState) (f : Flag) :
    mapValues (visit json_Marshal c st f) = mapValues st
    /\ errs (visit json_Marshal c st f) = errs st.
  Proof.
    rewrite visit_unfold. simpl.
    destruct (after_removal_maps (Name f) st) as (_ & Hm & He).
    destruct (IsList c (Name f)); simpl.
    - auto.
    - destruct (append_line_maps (scalar_line json_Marshal f)
                                 (after_removal (Name f) st)) as (_ & -> & ->).
      auto.
  Qed.

Lemma visit_wf (st : GenState) (f : Flag) :
    wf st -> wf (visit json_Marshal c st f).
  Proof.
    intros Hwf. rewrite visit_unfold. simpl.
    pose proof (after_removal_wf (Name f) st Hwf) as H.
    destruct (IsList c (Name f)).
    - exact H.
    - apply wf_append_line. exact H.
  Qed.

  (** A visit on the slice is a visit on the list of its elements. *)
Lemma visit_simulates (st : GenState) (f : Flag) :
    wf st ->
    (view (visit json_Marshal c st f), listValues (visit json_Marshal c st f))
    = visit_lines json_Marshal c (view st, listValues st) f.
  Proof.
    intros Hwf. rewrite visit_unfold. unfold visit_lines. simpl.
    pose proof (after_removal_view (Name f) st Hwf) as Hv.
    pose proof (after_removal_wf (Name f) st Hwf) as Hw.
    destruct (after_removal_maps (Name f) st) as (Hl & _ & _).
    destruct (IsList c (Name f)).
    - unfold set_listValues, view in *. simpl. rewrite Hl.
      f_equal. exact Hv.
    - rewrite view_append_line by assumption.
      destruct (append_line_maps (scalar_line json_Marshal f)
                                 (after_removal (Name f) st)) as (-> & _ & _).
      rewrite Hv, Hl. reflexivity.
  Qed.

Lemma visits_simulate (flags : list Flag) (st : GenState) :
    wf st ->
    let st' := fold_left (visit json_Marshal c) flags st in
    (view st', listValues st')
    = fold_left (visit_lines json_Marshal c) flags (view st, listValues st)
    /\ wf st' /\ mapValues st' = mapValues st /\ errs st' = errs st.
  Proof.
    revert st. induction flags as [|f flags IH]; intros st Hwf; simpl.
    - auto.
    - destruct (IH (visit json_Marshal c st f) (visit_wf st f Hwf))
        as (Hv & Hw & Hm & He).
      destruct (visit_maps_errs st f) as (Hm' & He').
      rewrite <- (visit_simulates st f Hwf).
      repeat split; try assumption; congruence.
  Qed.
End VisitFacts.

(** ** The expansion of the list and map blocks *)

Section ExpandFacts.
  Variable json_Marshal : string -> string.
  Variable range_order : forall V : Type, gomap V -> gomap V.

Lemma append_lines_view {A : Type} (g : A -> string) (xs : list A)
        (st : GenState) :
    wf st ->
    let st' := fold_left (fun st x => append_line (g x) st) xs st in
    view st' = view st ++ map g xs /\ wf st'
    /\ listValues st' = listValues st /\ mapValues st' = mapValues st.
  Proof.
    revert st. induction xs as [|x xs IH]; intros st Hwf; simpl.
    - rewrite app_nil_r. auto.
    - destruct (IH (append_line (g x) st) (wf_append_line _ _ Hwf))
        as (Hv & Hw & Hl & Hm).
      destruct (append_line_maps (g x) st) as (Hl' & Hm' & _).
      rewrite Hv, view_append_line, <- app_assoc by assumption.
      repeat split; try assumption; congruence.
  Qed.

Lemma expand_list_view (st : GenState) (entry : string * list string) :
    wf st ->
    let st' := expand_list json_Marshal st entry in
    view st' = view st ++ list_block json_Marshal entry /\ wf st'
    /\ listValues st' = listValues st /\ mapValues st' = mapValues st.
  Proof.
    intros Hwf. destruct entry as [varName items]. unfold expand_list.
    set (st1 := append_line EmptyString st).
    set (st2 := append_line (varName ++ " = [") st1).
    assert (Hw1 : wf st1) by (apply wf_append_line; assumption).
    assert (Hw2 : wf st2) by (apply wf_append_line; assumption).
    destruct (append_lines_view
                (fun item => ("  " ++ json_Marshal item ++ ",")%string)
                items st2 Hw2) as (Hv & Hw & Hl & Hm).
    cbv zeta in Hv, Hw, Hl, Hm. cbv zeta.
    set (st3 := fold_left _ items st2) in *.
    destruct (append_line_maps "]" st3) as (Hl3 & Hm3 & _).
    destruct (append_line_maps (varName ++ " = [") st1) as (Hl2 & Hm2 & _).
    destruct (append_line_maps EmptyString st) as (Hl1 & Hm1 & _).
    fold st1 in Hl1, Hm1. fold st2 in Hl2, Hm2.
    rewrite view_append_line by assumption.
    rewrite Hv. unfold st2. rewrite view_append_line by assumption.
    unfold st1 at 1. rewrite view_append_line by assumption.
    unfold list_block. simpl. rewrite <- !app_assoc. simpl.
    repeat split; try congruence.
    apply wf_append_line. assumption.
  Qed.

Lemma expand_lists_view (entries : gomap (list string)) (st : GenState) :
    wf st ->
    let st' := fold_left (expand_list json_Marshal) entries st in
    view st' = view st ++ flat_map (list_block json_Marshal) entries
    /\ wf st' /\ mapValues st' = mapValues st.
  Proof.
    revert st. induction entries as [|e entries IH]; intros st Hwf; simpl.
    - rewrite app_nil_r. auto.
    - destruct (expand_list_view st e Hwf) as (Hv & Hw & _ & Hm).
      destruct (IH _ Hw) as (Hv' & Hw' & Hm').
      rewrite Hv', Hv, <- app_assoc.
      repeat split; try assumption; congruence.
  Qed.

  (** The merge of the source computes the merged lines of the body. *)
Lemma merge_view (c : TerraformFileConfig) :
    fair_order range_order -> wf_slice (BodyLines c) ->
    view (merge json_Marshal range_order c)
    = merged_lines json_Marshal range_order c (elems (BodyLines c))
    /\ wf (merge json_Marshal range_order c).
  Proof.
    intros Hfair Hwf. unfold merge, visit_all, merged_lines.
    assert (Hw0 : wf (init_state c)) by exact Hwf.
    destruct (visits_simulate json_Marshal c (Flags c) (init_state c) Hw0)
      as (Hsim & Hw & Hm & _).
    cbv zeta in Hsim, Hw, Hm.
    set (st1 := fold_left (visit json_Marshal c) (Flags c) (init_state c)) in *.
    change (view (init_state c)) with (elems (BodyLines c)) in Hsim.
    change (listValues (init_state c)) with (@nil (string * list string)) in Hsim.
    destruct (expand_lists_view (range_order _ (listValues st1)) st1 Hw)
      as (Hv2 & Hw2 & Hm2).
    cbv zeta in Hv2, Hw2, Hm2.
    set (st2 := fold_left (expand_list json_Marshal) _ st1) in *.
    assert (Hnil : range_order _ (mapValues st2) = []).
    { rewrite Hm2, Hm. simpl.
      apply Permutation_nil. apply Permutation_sym. apply Hfair. }
    rewrite Hnil. simpl. split; [|assumption].
    rewrite Hv2. cbv zeta.
    pose proof (f_equal fst Hsim) as Hf. pose proof (f_equal snd Hsim) as Hs.
    simpl in Hf, Hs. rewrite Hf, Hs. reflexivity.
  Qed.
End ExpandFacts.

Import Samples.

(** ** Scalar flags (C1) *)

(** C1, amended.  In every invocation of [Generate], when a supplied scalar
    flag [f] (named neither in [ListFlags] nor in [MapFlags]) is visited,
    the working lines are the body lines still present followed by the
    lines appended for the flags visited before [f].  If none of these
    working lines contains the name of [f], the visit appends exactly one
    line, [f = <JSON value>]; if one does, the visit removes only the first
    such line, keeps the order of all others and appends the new line at
    the end.  The visits of the remaining flags continue from there. *)
Theorem C1_scalar_flag_visit :
  forall (json_Marshal : string -> string) (c : TerraformFileConfig)
         (visited : list Flag) (f : Flag) (rest : list Flag),
    wf_slice (BodyLines c) ->
    Flags c = visited ++ f :: rest ->
    is_scalar c f = true ->
    let st := fold_left (visit json_Marshal c) visited (init_state c) in
    let st' := visit json_Marshal c st f in
    (absent (Name f) (view st) ->
     view st' = view st ++ [scalar_line json_Marshal f])
    /\ (forall before l after,
           view st = before ++ l :: after ->
           absent (Name f) before ->
           Strings.Contains l (Name f) = true ->
           view st' = before ++ after ++ [scalar_line json_Marshal f])
    /\ (visited = [] -> view st = elems (BodyLines c))
    /\ visit_all json_Marshal c (init_state c)
       = fold_left (visit json_Marshal c) rest st'.
Proof.
  intros jm c visited f rest Hwf Hflags Hscalar st st'.
  assert (Hw0 : wf (init_state c)) by exact Hwf.
  destruct (visits_simulate jm c visited (init_state c) Hw0)
    as (_ & Hw & _ & _).
  fold st in Hw.
  assert (Hlist : IsList c (Name f) = false).
  { unfold is_scalar in Hscalar. apply andb_true_iff in Hscalar.
    destruct Hscalar as [H _]. apply negb_true_iff in H. exact H. }
  assert (Hview : view st' = remove_first (Name f) (view st)
                             ++ [scalar_line jm f]).
  { pose proof (f_equal fst (visit_simulates jm c st f Hw)) as H.
    unfold visit_lines in H. rewrite Hlist in H. exact H. }
  repeat split.
  - intros Habs. rewrite Hview, remove_first_absent by assumption.
    reflexivity.
  - intros before l after Hsplit Hbefore Hl.
    rewrite Hview, Hsplit, remove_first_split by assumption.
    rewrite <- app_assoc. reflexivity.
  - intros ->. reflexivity.
  - unfold visit_all. rewrite Hflags, fold_left_app. reflexivity.
Qed.

Lemma C1_scalar_flag_visit_witness :
  view (visit sample_json replace_config (init_state replace_config)
              (mkFlag "x" "2"))
  = [] ++ ["y = 3"%string] ++ [scalar_line sample_json (mkFlag "x" "2")].
Proof.
  refine (proj1 (proj2 (C1_scalar_flag_visit sample_json replace_config
                          [] (mkFlag "x" "2") [] _ eq_refl eq_refl))
                [] "x = 1"%string ["y = 3"%string] eq_refl _ eq_refl).
  - apply le_n.
  - constructor.
Defined.

(** C1 as stated fails over a whole invocation: with the scalar flags
    ["ab"] and ["b"] supplied over an empty body (visited in this order,
    sorted by name), no body line contains
    ["ab"], yet the merged lines do not hold the line of ["ab"]: the visit
    of ["b"] removed it again, since it contains ["b"]. *)
Lemma C1_counterexample :
  In (mkFlag "ab" "x") (Flags two_flags_config)
  /\ String.ltb "ab" "b" = true
  /\ is_scalar two_flags_config (mkFlag "ab" "x") = true
  /\ absent "ab" (elems (BodyLines two_flags_config))
  /\ view (merge sample_json sample_order two_flags_config)
     = [scalar_line sample_json (mkFlag "b" "y")]
  /\ ~ In (scalar_line sample_json (mkFlag "ab" "x"))
          (view (merge sample_json sample_order two_flags_config)).
Proof.
  split; [left; reflexivity|].
  split; [reflexivity|].
  split; [reflexivity|].
  split; [constructor|].
  split; [reflexivity|].
  vm_compute. intros [H|[]]. discriminate H.
Qed.

(** ** Map flags (C2) *)

(** C2, the behaviour of the code.  [IsMap] answers as [IsList] does, and
    the closure of [Generate] tests [IsList] twice, so no visit ever
    records a map entry or an error.  A flag named in [MapFlags] only is
    rendered as a scalar: with the value ["broken"] the call succeeds with
    the line [labels = "broken"], and with ["k=v"] it yields the line
    [labels = "k=v"] and no block. *)
Theorem C2_map_flags_are_rendered_as_scalars :
  forall (json_Marshal : string -> string) (c : TerraformFileConfig)
         (st : GenState) (f : Flag),
    IsMap c (Name f) = IsList c (Name f)
    /\ mapValues (visit json_Marshal c st f) = mapValues st
    /\ errs (visit json_Marshal c st f) = errs st
    /\ fst (Generate sample_json sample_format sample_order
                     (labels_config "broken"))
       = GenOk ("labels = " ++ sample_json "broken")
    /\ fst (Generate sample_json sample_format sample_order
                     (labels_config "k=v"))
       = GenOk ("labels = " ++ sample_json "k=v").
Proof.
  intros jm c st f.
  destruct (visit_maps_errs jm c st f) as [Hm He].
  repeat split; try assumption; reflexivity.
Qed.

(** ** The capacity of the body array *)

Lemma copy_down_length (i n : nat) (a : list string) :
  i < n -> n <= length a -> length (copy_down i n a) = length a.
Proof.
  intros Hi Hn. rewrite copy_down_shape by assumption.
  rewrite length_app, drop_at_length, length_firstn, length_skipn;
    [lia|rewrite length_firstn; lia].
Qed.

Lemma remove_line_capacity (i : nat) (st : GenState) :
  wf st -> i < length (view st) ->
  length (backing (remove_line i st)) = length (backing st).
Proof.
  unfold wf, view, remove_line. intros Hwf Hi.
  destruct (lines st) as [n|l]; simpl; [|reflexivity].
  rewrite length_firstn in Hi.
  rewrite store_length, copy_down_length by lia. reflexivity.
Qed.

Lemma append_line_capacity (x : string) (st : GenState) :
  length (backing (append_line x st)) = length (backing st).
Proof.
  unfold append_line. destruct (lines st) as [n|l]; [|reflexivity].
  destruct (Nat.ltb n (length (backing st))); simpl; [|reflexivity].
  apply store_length.
Qed.

Lemma visit_capacity (json_Marshal : string -> string)
      (c : TerraformFileConfig) (st : GenState) (f : Flag) :
  wf st ->
  length (backing (visit json_Marshal c st f)) = length (backing st).
Proof.
  intros Hwf. rewrite visit_unfold. cbv zeta.
  assert (Hr : length (backing (after_removal (Name f) st))
               = length (backing st)).
  { unfold after_removal.
    destruct (find_line (Name f) (view st)) as [i|] eqn:E; [|reflexivity].
    apply remove_line_capacity; [exact Hwf|].
    eapply find_line_bound. exact E. }
  destruct (IsList c (Name f)).
  - exact Hr.
  - rewrite append_line_capacity. exact Hr.
Qed.

Lemma visits_capacity (json_Marshal : string -> string)
      (c : TerraformFileConfig) (flags : list Flag) (st : GenState) :
  wf st ->
  length (backing (fold_left (visit json_Marshal c) flags st))
  = length (backing st).
Proof.
  revert st. induction flags as [|f flags IH]; intros st Hwf; simpl.
  - reflexivity.
  - rewrite IH by (apply visit_wf; exact Hwf).
    apply visit_capacity. exact Hwf.
Qed.

Lemma append_lines_capacity {A : Type} (g : A -> string) (xs : list A)
      (st : GenState) :
  length (backing (fold_left (fun st x => append_line (g x) st) xs st))
  = length (backing st).
Proof.
  revert st. induction xs as [|x xs IH]; intros st; simpl; [reflexivity|].
  rewrite IH. apply append_line_capacity.
Qed.

Lemma expand_list_capacity (json_Marshal : string -> string)
      (st : GenState) (entry : string * list string) :
  length (backing (expand_list json_Marshal st entry))
  = length (backing st).
Proof.
  destruct entry as [varName items]. unfold expand_list.
  rewrite append_line_capacity, append_lines_capacity.
  rewrite !append_line_capacity. reflexivity.
Qed.

Lemma expand_map_capacity (json_Marshal : string -> string)
      (range_order : forall V : Type, gomap V -> gomap V)
      (st : GenState) (entry : string * gomap string) :
  length (backing (expand_map json_Marshal range_order st entry))
  = length (backing st).
Proof.
  destruct entry as [varName items]. unfold expand_map.
  rewrite append_line_capacity, append_lines_capacity.
  rewrite !append_line_capacity. reflexivity.
Qed.

Lemma fold_capacity {A : Type} (step : GenState -> A -> GenState)
      (xs : list A) (st : GenState) :
  (forall s x, length (backing (step s x)) = length (backing s)) ->
  length (backing (fold_left step xs st)) = length (backing st).
Proof.
  intros Hstep. revert st.
  induction xs as [|x xs IH]; intros st; simpl; [reflexivity|].
  rewrite IH. apply Hstep.
Qed.

Lemma merge_capacity (json_Marshal : string -> string)
      (range_order : forall V : Type, gomap V -> gomap V)
      (c : TerraformFileConfig) :
  wf_slice (BodyLines c) ->
  length (backing (merge json_Marshal range_order c))
  = length (arr (BodyLines c)).
Proof.
  intros Hwf. unfold merge, visit_all.
  rewrite fold_capacity by (intros; apply expand_map_capacity).
  rewrite fold_capacity by (intros; apply expand_list_capacity).
  rewrite visits_capacity by exact Hwf. reflexivity.
Qed.

(** ** Memory *)

Lemma read_length (mem : Memory) (p n : nat) :
  p + n <= length mem -> length (read mem p n) = n.
Proof.
  intros H. unfold read. rewrite length_firstn, length_skipn. lia.
Qed.

Lemma write_nil (mem : Memory) (p : nat) : write mem p [] = mem.
Proof.
  unfold write. simpl. rewrite Nat.add_0_r. apply firstn_skipn.
Qed.

Lemma write_length (mem : Memory) (p : nat) (xs : list string) :
  p + length xs <= length mem -> length (write mem p xs) = length mem.
Proof.
  intros H. unfold write.
  rewrite !length_app, length_firstn, length_skipn. lia.
Qed.

Lemma skipn_write_before (mem : Memory) (p q : nat) (xs : list string) :
  q <= p -> p <= length mem ->
  skipn q (write mem p xs)
  = firstn (p - q) (skipn q mem) ++ xs ++ skipn (p + length xs) mem.
Proof.
  intros Hq Hp. unfold write.
  rewrite skipn_app, length_firstn, Nat.min_l by assumption.
  replace (q - p) with 0 by lia. rewrite skipn_O.
  rewrite skipn_firstn_comm. reflexivity.
Qed.

Lemma skipn_write_after (mem : Memory) (p q : nat) (xs : list string) :
  p + length xs <= q -> p + length xs <= length mem ->
  skipn q (write mem p xs) = skipn q mem.
Proof.
  intros Hq Hp. unfold write.
  rewrite skipn_app, length_firstn, Nat.min_l by lia.
  rewrite (skipn_all2 (firstn p mem)) by (rewrite length_firstn; lia).
  rewrite skipn_app.
  rewrite (skipn_all2 xs) by lia.
  rewrite skipn_skipn. simpl. f_equal. lia.
Qed.

(** A write leaves the cells of a run apart from it as they were. *)
Lemma read_write_apart (mem : Memory) (p q n : nat) (xs : list string) :
  p + length xs <= length mem ->
  apart q n p (length xs) ->
  read (write mem p xs) q n = read mem q n.
Proof.
  intros Hp [Hn|[Hx|[Hbefore|Hafter]]]; unfold read.
  - subst n. reflexivity.
  - destruct xs; [|discriminate Hx]. rewrite write_nil. reflexivity.
  - rewrite skipn_write_before by lia.
    rewrite firstn_app, firstn_firstn, Nat.min_l by lia.
    rewrite length_firstn, length_skipn.
    replace (n - Nat.min (p - q) (length mem - q)) with 0 by lia.
    rewrite firstn_O, app_nil_r. reflexivity.
  - rewrite skipn_write_after by lia. reflexivity.
Qed.

(** Cells written are read back, also after the cells before them. *)
Lemma read_write_extend (mem : Memory) (p n : nat) (xs : list string) :
  p + n + length xs <= length mem ->
  read (write mem (p + n) xs) p (n + length xs) = read mem p n ++ xs.
Proof.
  intros H. unfold read.
  rewrite skipn_write_before by lia.
  replace (p + n - p) with n by lia.
  rewrite firstn_app, firstn_firstn, Nat.min_r by lia.
  rewrite length_firstn, length_skipn.
  replace (n + length xs - Nat.min n (length mem - p)) with (length xs)
    by lia.
  rewrite firstn_app, Nat.sub_diag, firstn_O, app_nil_r.
  rewrite firstn_all. reflexivity.
Qed.

Lemma read_write_prefix (mem : Memory) (p n : nat) (xs : list string) :
  p + length xs <= length mem -> n <= length xs ->
  read (write mem p xs) p n = firstn n xs.
Proof.
  intros H Hn. unfold read.
  rewrite skipn_write_before by lia.
  rewrite Nat.sub_diag, firstn_O, app_nil_l.
  rewrite firstn_app.
  replace (n - length xs) with 0 by lia.
  rewrite firstn_O, app_nil_r. reflexivity.
Qed.

Lemma write_read (mem : Memory) (p n : nat) :
  p + n <= length mem -> write mem p (read mem p n) = mem.
Proof.
  intros H. unfold write. rewrite read_length by assumption.
  unfold read.
  rewrite <- (firstn_skipn p mem) at 4. f_equal.
  rewrite <- (firstn_skipn n (skipn p mem)) at 2. f_equal.
  rewrite skipn_skipn. f_equal. lia.
Qed.

Lemma apart_within (a n b m a' n' : nat) :
  apart a n b m -> a <= a' -> a' + n' <= a + n -> apart a' n' b m.
Proof. unfold apart. intros H Ha Hn. lia. Qed.

Lemma apart_sym (a n b m : nat) : apart a n b m -> apart b m a n.
Proof. unfold apart. lia. Qed.

(** ** "Compose all lines" *)

Section ComposeFacts.
Variable c : TerraformFileConfig.

(** An [append] adds its argument to the elements of [allLines],
    whatever the cells it writes belonged to. *)
Lemma append_all_elems (xs : list string) (s : Memory * Assembled) :
  span_ptr (pre_span c) + span_cap (pre_span c) <= length (fst s) ->
  assembled_elems c (fst (append_all c xs s)) (snd (append_all c xs s))
  = assembled_elems c (fst s) (snd s) ++ xs.
Proof.
  destruct s as [mem a]. cbn [fst snd].
  intros Hwf. unfold append_all. cbn [fst snd].
  destruct a as [n|l]; [|reflexivity].
  destruct (Nat.leb (n + length xs) (span_cap (pre_span c))) eqn:E;
    cbn [fst snd assembled_elems]; [|reflexivity].
  apply Nat.leb_le in E. apply read_write_extend. lia.
Qed.

Lemma append_all_length (xs : list string) (s : Memory * Assembled) :
  span_ptr (pre_span c) + span_cap (pre_span c) <= length (fst s) ->
  length (fst (append_all c xs s)) = length (fst s).
Proof.
  destruct s as [mem a]. cbn [fst snd].
  intros Hwf. unfold append_all. cbn [fst snd].
  destruct a as [n|l]; [|reflexivity].
  destruct (Nat.leb (n + length xs) (span_cap (pre_span c))) eqn:E;
    cbn [fst]; [|reflexivity].
  apply Nat.leb_le in E. apply write_length. lia.
Qed.

Lemma append_all_beyond (xs : list string) (s : Memory * Assembled) :
  beyond_header c (snd s) -> beyond_header c (snd (append_all c xs s)).
Proof.
  destruct s as [mem a]. cbn [fst snd].
  unfold append_all. cbn [fst snd].
  destruct a as [n|l]; [|intros; exact I].
  destruct (Nat.leb (n + length xs) (span_cap (pre_span c)));
    cbn [snd beyond_header]; [lia|intros; exact I].
Qed.

(** An [append] writes only spare cells of the array of [c.PreLines]:
    a run apart from them is left as it was. *)
Lemma append_all_apart (xs : list string) (s : Memory * Assembled)
      (q m : nat) :
  span_ptr (pre_span c) + span_cap (pre_span c) <= length (fst s) ->
  beyond_header c (snd s) ->
  apart (span_ptr (pre_span c) + span_len (pre_span c))
        (span_cap (pre_span c) - span_len (pre_span c)) q m ->
  read (fst (append_all c xs s)) q m = read (fst s) q m.
Proof.
  destruct s as [mem a]. cbn [fst snd].
  intros Hwf Ha Hapart. unfold append_all. cbn [fst snd].
  destruct a as [n|l]; [|reflexivity].
  destruct (Nat.leb (n + length xs) (span_cap (pre_span c))) eqn:E;
    cbn [fst snd]; [|reflexivity].
  apply Nat.leb_le in E. cbn [beyond_header] in Ha.
  apply read_write_apart; [lia|].
  apply apart_sym.
  eapply apart_within; [exact Hapart| |]; lia.
Qed.

(** The elements of [c.PreLines] lie below the cells an [append]
    writes. *)
Lemma append_all_header (xs : list string) (s : Memory * Assembled) :
  span_ptr (pre_span c) + span_cap (pre_span c) <= length (fst s) ->
  beyond_header c (snd s) ->
  read (fst (append_all c xs s)) (span_ptr (pre_span c))
       (span_len (pre_span c))
  = read (fst s) (span_ptr (pre_span c)) (span_len (pre_span c)).
Proof.
  destruct s as [mem a]. cbn [fst snd].
  intros Hwf Ha. unfold append_all. cbn [fst snd].
  destruct a as [n|l]; [|reflexivity].
  destruct (Nat.leb (n + length xs) (span_cap (pre_span c))) eqn:E;
    cbn [fst snd]; [|reflexivity].
  apply Nat.leb_le in E. cbn [beyond_header] in Ha.
  apply read_write_apart; [lia|].
  unfold apart. lia.
Qed.

Lemma compose_steps (st : GenState) :
  compose c st
  = (assembled_elems c (fst (after_post c st)) (snd (after_post c st)),
     fst (after_post c st)).
Proof. reflexivity. Qed.

Hypothesis Hwf : wf_receiver c.
Variable st : GenState.
Hypothesis Hcap : length (backing st) = span_cap (body_span c).

Lemma memory_after_merge_length :
  length (memory_after_merge c st) = length (cells c).
Proof.
  destruct Hwf as (_ & (_ & Hbc) & _).
  unfold memory_after_merge. apply write_length. lia.
Qed.

Lemma after_body_length : length (fst (after_body c st)) = length (cells c).
Proof.
  destruct Hwf as ((_ & Hpc) & _).
  unfold after_body. rewrite append_all_length; cbn [fst];
    rewrite memory_after_merge_length; [reflexivity|exact Hpc].
Qed.

Lemma after_lines_length : length (fst (after_lines c st)) = length (cells c).
Proof.
  destruct Hwf as ((_ & Hpc) & _).
  unfold after_lines. rewrite append_all_length;
    rewrite after_body_length; [reflexivity|exact Hpc].
Qed.

Lemma after_post_length : length (fst (after_post c st)) = length (cells c).
Proof.
  destruct Hwf as ((_ & Hpc) & _).
  unfold after_post. rewrite append_all_length;
    rewrite after_lines_length; [reflexivity|exact Hpc].
Qed.

Lemma after_body_beyond : beyond_header c (snd (after_body c st)).
Proof.
  unfold after_body. apply append_all_beyond. cbn. lia.
Qed.

Lemma after_lines_beyond : beyond_header c (snd (after_lines c st)).
Proof.
  unfold after_lines. apply append_all_beyond. exact after_body_beyond.
Qed.

(** The lines composed, in general: the header lines as the merge left
    them, then the arguments of the three appends as each append found
    them in memory. *)
Lemma compose_lines :
  fst (compose c st)
  = read (memory_after_merge c st) (span_ptr (pre_span c))
         (span_len (pre_span c))
      ++ read (memory_after_merge c st) (span_ptr (body_span c))
              (span_len (body_span c))
      ++ lines_in c (fst (after_body c st)) st
      ++ read (fst (after_lines c st)) (span_ptr (post_span c))
              (span_len (post_span c)).
Proof.
  pose proof Hwf as ((_ & Hpc) & _).
  rewrite compose_steps. cbn [fst].
  unfold after_post.
  rewrite append_all_elems by (rewrite after_lines_length; exact Hpc).
  unfold after_lines at 1 2.
  rewrite append_all_elems by (rewrite after_body_length; exact Hpc).
  unfold after_body at 1 2.
  rewrite append_all_elems
    by (cbn [fst]; rewrite memory_after_merge_length; exact Hpc).
  cbn [fst snd assembled_elems]. rewrite <- !app_assoc. reflexivity.
Qed.

(** A run apart from the spare cells of [c.PreLines] holds after the
    appends what the merge left in it. *)
Lemma appends_apart (q m : nat) :
  apart (span_ptr (pre_span c) + span_len (pre_span c))
        (span_cap (pre_span c) - span_len (pre_span c)) q m ->
  read (fst (after_body c st)) q m = read (memory_after_merge c st) q m
  /\ read (fst (after_lines c st)) q m = read (memory_after_merge c st) q m
  /\ read (fst (after_post c st)) q m = read (memory_after_merge c st) q m.
Proof.
  intros Hapart. pose proof Hwf as ((_ & Hpc) & _).
  assert (H1 : read (fst (after_body c st)) q m
               = read (memory_after_merge c st) q m).
  { unfold after_body. rewrite append_all_apart; cbn [fst snd];
      [reflexivity| |cbn; lia|exact Hapart].
    rewrite memory_after_merge_length. exact Hpc. }
  assert (H2 : read (fst (after_lines c st)) q m
               = read (memory_after_merge c st) q m).
  { unfold after_lines. rewrite append_all_apart;
      [exact H1| |exact after_body_beyond|exact Hapart].
    rewrite after_body_length. exact Hpc. }
  repeat split; [exact H1|exact H2|].
  unfold after_post. rewrite append_all_apart;
    [exact H2| |exact after_lines_beyond|exact Hapart].
  rewrite after_lines_length. exact Hpc.
Qed.

Lemma appends_header :
  read (fst (after_post c st)) (span_ptr (pre_span c)) (span_len (pre_span c))
  = read (memory_after_merge c st) (span_ptr (pre_span c))
         (span_len (pre_span c)).
Proof.
  pose proof Hwf as ((_ & Hpc) & _).
  unfold after_post. rewrite append_all_header;
    [| rewrite after_lines_length; exact Hpc | exact after_lines_beyond].
  unfold after_lines. rewrite append_all_header;
    [| rewrite after_body_length; exact Hpc | exact after_body_beyond].
  unfold after_body. rewrite append_all_header; cbn [fst snd];
    [reflexivity| |cbn; lia].
  rewrite memory_after_merge_length. exact Hpc.
Qed.

(** The merge writes the array of [c.BodyLines] and nothing else. *)
Lemma memory_after_merge_body :
  read (memory_after_merge c st) (span_ptr (body_span c))
       (span_cap (body_span c)) = backing st.
Proof.
  destruct Hwf as (_ & (_ & Hbc) & _).
  unfold memory_after_merge.
  rewrite read_write_prefix by lia. rewrite <- Hcap. apply firstn_all.
Qed.

Lemma memory_after_merge_apart (q m : nat) :
  apart (span_ptr (body_span c)) (span_cap (body_span c)) q m ->
  read (memory_after_merge c st) q m = read (cells c) q m.
Proof.
  intros Hapart. destruct Hwf as (_ & (_ & Hbc) & _).
  unfold memory_after_merge.
  apply read_write_apart; [lia|].
  rewrite Hcap. apply apart_sym. exact Hapart.
Qed.

Hypothesis Hsep : separate c.
Hypothesis Hst : wf st.

(** The lines composed and the memory left when the slices of the
    receiver are separate. *)
Lemma compose_separate :
  fst (compose c st)
  = PreLines c ++ firstn (span_len (body_span c)) (backing st)
      ++ view st ++ PostLines c
  /\ read (snd (compose c st)) (span_ptr (body_span c))
          (span_cap (body_span c)) = backing st
  /\ read (snd (compose c st)) (span_ptr (pre_span c))
          (span_len (pre_span c)) = PreLines c
  /\ read (snd (compose c st)) (span_ptr (post_span c))
          (span_len (post_span c)) = PostLines c
  /\ length (snd (compose c st)) = length (cells c).
Proof.
  destruct Hsep as (Hbp & Hbo & Hso).
  pose proof Hwf as ((Hpl & Hpc) & (Hbl & Hbc) & (Hol & Hoc)).
  assert (Hsb : apart (span_ptr (pre_span c) + span_len (pre_span c))
                      (span_cap (pre_span c) - span_len (pre_span c))
                      (span_ptr (body_span c)) (span_cap (body_span c))).
  { apply apart_sym in Hbp.
    eapply apart_within; [exact Hbp| |]; lia. }
  assert (Hbh : apart (span_ptr (body_span c)) (span_cap (body_span c))
                      (span_ptr (pre_span c)) (span_len (pre_span c))).
  { apply apart_sym. apply apart_sym in Hbp.
    eapply apart_within; [exact Hbp| |]; lia. }
  destruct (appends_apart _ _ Hsb) as (Hb1 & Hb2 & Hb3).
  destruct (appends_apart _ _ Hso) as (Ho1 & Ho2 & Ho3).
  rewrite memory_after_merge_body in Hb1, Hb2, Hb3.
  rewrite (memory_after_merge_apart _ _ Hbo) in Ho1, Ho2, Ho3.
  assert (Hprefix : forall mem n,
             n <= span_cap (body_span c) ->
             read mem (span_ptr (body_span c)) (span_cap (body_span c))
             = backing st ->
             read mem (span_ptr (body_span c)) n = firstn n (backing st)).
  { intros mem n Hn <-. unfold read.
    rewrite firstn_firstn, Nat.min_l by lia. reflexivity. }
  split.
  { rewrite compose_lines.
    rewrite (memory_after_merge_apart _ _ Hbh).
    rewrite (Hprefix _ _ Hbl memory_after_merge_body).
    rewrite Ho2.
    replace (lines_in c (fst (after_body c st)) st) with (view st);
      [reflexivity|].
    unfold lines_in, view. unfold wf in Hst.
    destruct (lines st) as [n|l]; [|reflexivity].
    symmetry. apply Hprefix; [lia|exact Hb1]. }
  rewrite compose_steps. cbn [snd].
  split; [exact Hb3|].
  split; [rewrite appends_header; exact (memory_after_merge_apart _ _ Hbh)|].
  split; [exact Ho3|].
  exact after_post_length.
Qed.
End ComposeFacts.

(** ** Assembly and formatting (C6) *)

(** C6, amended.  [Generate] assembles its lines by three appends onto
    [c.PreLines], each adding the elements its argument holds at that
    moment: the header lines, then [c.BodyLines] as the merge left it,
    then the merged lines, then [c.PostLines] as the appends before left
    it.  It joins the lines with newlines, passes the text to the
    formatter, returns the formatter's bytes when it accepts, and returns
    no bytes and the error ["Could not format output: " ++ message] when
    it rejects; nothing else decides between bytes and error.  When the
    array of [c.BodyLines] shares no cell with the array of [c.PreLines]
    nor with the elements of [c.PostLines], and the spare cells of
    [c.PreLines] hold no element of [c.PostLines], the lines are
    [pre ++ B ++ merged(body) ++ post], where [body] is the body the
    receiver held at the call, [merged(body)] the merged lines computed
    from it, and [B] the elements of [c.BodyLines] as the merge left them
    in the shared array (not always [body]); the call then leaves the
    header and footer lines as they were. *)
Theorem C6_generate_assembles_and_formats :
  forall (json_Marshal : string -> string)
         (printer_Format : string -> string + string)
         (range_order : forall V : Type, gomap V -> gomap V)
         (c : TerraformFileConfig),
    fair_order range_order ->
    wf_receiver c ->
    let c' := snd (Generate json_Marshal printer_Format range_order c) in
    let st := merge json_Marshal range_order c in
    fst (Generate json_Marshal printer_Format range_order c)
    = match printer_Format
              (Strings.Join (allLines json_Marshal range_order c) newline)
      with
      | inl content => GenOk content
      | inr err => GenErr ("Could not format output: " ++ err)
      end
    /\ allLines json_Marshal range_order c
       = read (memory_after_merge c st) (span_ptr (pre_span c))
              (span_len (pre_span c))
           ++ read (memory_after_merge c st) (span_ptr (body_span c))
                   (span_len (body_span c))
           ++ lines_in c (fst (after_body c st)) st
           ++ read (fst (after_lines c st)) (span_ptr (post_span c))
                   (span_len (post_span c))
    /\ (separate c ->
        allLines json_Marshal range_order c
        = PreLines c ++ elems (BodyLines c')
            ++ merged_lines json_Marshal range_order c
                            (elems (BodyLines c))
            ++ PostLines c
        /\ BodyLines c'
           = mkSlice (backing (merge json_Marshal range_order c))
                     (len (BodyLines c))
        /\ PreLines c' = PreLines c
        /\ PostLines c' = PostLines c).
Proof.
  intros jm pf ro c Hfair Hwf c' st.
  assert (Hws : wf_slice (BodyLines c)).
  { destruct Hwf as (_ & (Hbl & Hbc) & _).
    unfold wf_slice, BodyLines. cbn [len arr].
    rewrite read_length by assumption. exact Hbl. }
  destruct (merge_view jm ro c Hfair Hws) as [Hv Hwst].
  assert (Hcap : length (backing (merge jm ro c)) = span_cap (body_span c)).
  { rewrite merge_capacity by exact Hws.
    unfold BodyLines. cbn [arr]. apply read_length.
    destruct Hwf as (_ & (_ & Hbc) & _). exact Hbc. }
  split; [reflexivity|].
  split; [exact (compose_lines c Hwf (merge jm ro c) Hcap)|].
  intros Hsep.
  destruct (compose_separate c Hwf (merge jm ro c) Hcap Hsep Hwst)
    as (Hlines & Hb & Hp & Ho & _).
  assert (Hbody : BodyLines c'
                  = mkSlice (backing (merge jm ro c)) (len (BodyLines c))).
  { unfold c', Generate, receiver_after, BodyLines. cbn [snd cells body_span].
    rewrite Hb. reflexivity. }
  repeat split.
  - unfold allLines. rewrite Hlines, Hbody, <- Hv. reflexivity.
  - exact Hbody.
  - exact Hp.
  - exact Ho.
Qed.

Lemma C6_generate_assembles_and_formats_witness :
  fst (Generate sample_json rejecting_format sample_order replace_config)
  = GenErr "Could not format output: illegal char"
  /\ allLines sample_json sample_order replace_config
     = ["module {"; "y = 3"; "x = " ++ sample_json "2";
        "y = 3"; "x = " ++ sample_json "2"; "}"]%string.
Proof.
  refine ((fun H => conj (proj1 H) (proj1 (proj2 (proj2 H) _)))
            (C6_generate_assembles_and_formats
               sample_json rejecting_format sample_order replace_config
               _ _)).
  - repeat split; unfold apart; cbn; lia.
  - intros V m. apply Permutation_refl.
  - repeat split; cbn; lia.
Defined.

(** C6 as stated fails where the merge writes the shared array: with the
    body [x = 1; y = 3] and the flag [x] supplied, the text handed to the
    formatter holds [y = 3; x = "2"] twice, and not the original body
    followed by the merged lines. *)
Lemma C6_counterexample :
  fst (Generate sample_json sample_format sample_order replace_config)
  = GenOk (Strings.Join
             (PreLines replace_config
                ++ ["y = 3"; "x = " ++ sample_json "2"]
                ++ ["y = 3"; "x = " ++ sample_json "2"]
                ++ PostLines replace_config) newline)%string
  /\ elems (BodyLines replace_config) = ["x = 1"; "y = 3"]%string
  /\ merged_lines sample_json sample_order replace_config
                  (elems (BodyLines replace_config))
     = ["y = 3"; "x = " ++ sample_json "2"]%string
  /\ allLines sample_json sample_order replace_config
     <> PreLines replace_config
          ++ elems (BodyLines replace_config)
          ++ merged_lines sample_json sample_order replace_config
                          (elems (BodyLines replace_config))
          ++ PostLines replace_config.
Proof.
  split; [reflexivity|].
  split; [reflexivity|].
  split; [reflexivity|].
  vm_compute. intros H. discriminate H.
Qed.

(** ** Writes to the array of the receiver (C10) *)

Lemma store_last (l : list string) (y x : string) :
  store (length l) x (l ++ [y]) = l ++ [x].
Proof.
  rewrite store_cell by (rewrite length_app; simpl; lia).
  rewrite firstn_app, Nat.sub_diag, firstn_all, firstn_O, app_nil_r.
  rewrite skipn_all2 by (rewrite length_app; simpl; lia).
  reflexivity.
Qed.

Lemma literal_elems (l : list string) : elems (literal l) = l.
Proof. unfold elems, literal. simpl. apply firstn_all. Qed.






Section VisitSteps.
Variable json_Marshal : string -> string.
Variable c : TerraformFileConfig.
Variable st : GenState.
Variable f : Flag.
Hypothesis Hwf : wf st.



End VisitSteps.






(** * Properties of the router *)

Import Router Routes.
Local Open Scope proc_scope.

(** ** Running computations *)

Section Runs.
  Context {World : Type}.

Lemma bind_value {A B : Type} (m : M World A) (k : A -> M World B)
        (w w' : World) (t : list Event) (a : A) :
    m w = (t, w', inl a) -> bind m k w = with_prefix t (k a w').
  Proof.
    intros H. unfold bind, with_prefix, trace, world, outcome. rewrite H.
    destruct (k a w') as [[t' w''] r]. reflexivity.
  Qed.

Lemma bind_halt {A B : Type} (m : M World A) (k : A -> M World B)
        (w w' : World) (t : list Event) (h : Halt) :
    m w = (t, w', inr h) -> bind m k w = (t, w', inr h).
  Proof. intros H. unfold bind. rewrite H. reflexivity. Qed.

Lemma with_prefix_nil {A : Type} (r : list Event * World * (A + Halt)) :
    with_prefix [] r = r.
  Proof. destruct r as [[t w] o]. reflexivity. Qed.

Lemma with_prefix_app {A : Type} (t1 t2 : list Event)
        (r : list Event * World * (A + Halt)) :
    with_prefix t1 (with_prefix t2 r) = with_prefix (t1 ++ t2) r.
  Proof.
    destruct r as [[t w] o]. unfold with_prefix, trace, world, outcome.
    simpl. rewrite app_assoc. reflexivity.
  Qed.

Lemma emit_then {B : Type} (e : Event) (k : M World B) (w : World) :
    bind (emit e) (fun _ => k) w = with_prefix [e] (k w).
  Proof. apply (bind_value (emit e) (fun _ => k) w w [e] tt). reflexivity. Qed.

Lemma call_then {B : Type} (f : World -> option error * World)
        (k : option error -> M World B) (w : World) :
    bind (call f) k w = k (fst (f w)) (snd (f w)).
  Proof.
    rewrite (bind_value (call f) k w (snd (f w)) [] (fst (f w))).
    - apply with_prefix_nil.
    - unfold call. destruct (f w). reflexivity.
  Qed.

Lemma ask_then {A B : Type} (f : World -> A) (k : A -> M World B)
        (w : World) :
    bind (ask f) k w = k (f w) w.
  Proof.
    rewrite (bind_value (ask f) k w w [] (f w)) by reflexivity.
    apply with_prefix_nil.
  Qed.

Lemma check_then {B : Type} (err : option error) (k : M World B)
        (w : World) :
    bind (check err) (fun _ => k) w
    = match err with
      | Some e => ([], w, inr (Fatal e))
      | None => k w
      end.
  Proof.
    destruct err as [e|].
    - reflexivity.
    - rewrite (bind_value (check None) (fun _ => k) w w [] tt) by reflexivity.
      apply with_prefix_nil.
  Qed.

Lemma ret_then {A B : Type} (a : A) (k : A -> M World B) (w : World) :
    bind (ret a) k w = k a w.
  Proof.
    rewrite (bind_value (ret a) k w w [] a) by reflexivity.
    apply with_prefix_nil.
  Qed.

Lemma bind_assoc_run {A B C : Type} (m : M World A) (k : A -> M World B)
        (k' : B -> M World C) (w : World) :
    bind (bind m k) k' w = bind m (fun a => bind (k a) k') w.
  Proof.
    unfold bind. destruct (m w) as [[t w1] [a|h]]; [|reflexivity].
    destruct (k a w1) as [[t1 w2] [b|h]]; [|reflexivity].
    destruct (k' b w2) as [[t2 w3] r]. rewrite app_assoc. reflexivity.
  Qed.

Lemma trace_with_prefix {A : Type} (t : list Event)
        (r : list Event * World * (A + Halt)) :
    trace (with_prefix t r) = t ++ trace r.
  Proof. reflexivity. Qed.

Lemma outcome_with_prefix {A : Type} (t : list Event)
        (r : list Event * World * (A + Halt)) :
    outcome (with_prefix t r) = outcome r.
  Proof. reflexivity. Qed.

  (** ** Events of composed computations *)

Lemma events_bind {A B : Type} (P : Event -> Prop) (m : M World A)
        (k : A -> M World B) :
    events_in P m -> (forall a, events_in P (k a)) -> events_in P (bind m k).
  Proof.
    intros Hm Hk w. specialize (Hm w). unfold bind.
    destruct (m w) as [[t w1] [a|h]]; simpl in *; [|assumption].
    specialize (Hk a w1). destruct (k a w1) as [[t' w2] r]. simpl in *.
    apply Forall_app. split; assumption.
  Qed.

Lemma events_ret {A : Type} (P : Event -> Prop) (a : A) :
    events_in P (ret (World := World) a).
  Proof. intros w. constructor. Qed.

Lemma events_halt {A : Type} (P : Event -> Prop) (h : Halt) :
    events_in P (halt (World := World) (A := A) h).
  Proof. intros w. constructor. Qed.

Lemma events_emit (P : Event -> Prop) (e : Event) :
    P e -> events_in P (emit (World := World) e).
  Proof. intros He w. constructor; [assumption|constructor]. Qed.

Lemma events_call (P : Event -> Prop) (f : World -> option error * World) :
    events_in P (call f).
  Proof. intros w. unfold call. destruct (f w). constructor. Qed.

Lemma events_ask {A : Type} (P : Event -> Prop) (f : World -> A) :
    events_in P (ask f).
  Proof. intros w. constructor. Qed.

Lemma events_check (P : Event -> Prop) (err : option error) :
    events_in P (check (World := World) err).
  Proof. destruct err; intros w; constructor. Qed.

Lemma events_weaken {A : Type} (P Q : Event -> Prop) (m : M World A) :
    (forall e, P e -> Q e) -> events_in P m -> events_in Q m.
  Proof.
    intros HPQ Hm w. eapply Forall_impl; [exact HPQ|apply Hm].
  Qed.
End Runs.

Ltac events_step :=
  first
    [ apply events_bind; [|intros ?]
    | apply events_emit; simpl; auto
    | apply events_ret | apply events_halt | apply events_call
    | apply events_ask | apply events_check ].

(** ** The events of each part of [main] *)

Section Shapes.
  Context {World Version : Type}.
  Variable env : Collaborators World Version.
  Variable plugins : list (Plugin World).

Lemma emit_all_run (es : list Event) (w : World) :
    emit_all es w = (es, w, inl tt).
  Proof.
    induction es as [|e es IH]; [reflexivity|].
    simpl. rewrite emit_then, IH. reflexivity.
  Qed.

Lemma showMissingTerraformHelp_run (w : World) :
    showMissingTerraformHelp env w
    = (missing_terraform_notice env, w, inl tt).
  Proof. reflexivity. Qed.

Lemma showPluginHelp_run (arg0 : string) (w : World) :
    showPluginHelp plugins arg0 w = (plugin_help plugins arg0, w, inl tt).
  Proof.
    unfold showPluginHelp, plugin_help.
    rewrite !emit_then, emit_all_run. reflexivity.
  Qed.

  (** The whole run of [showHelp]. *)
Lemma showHelp_run (arg0 : string) (w : World) :
    showHelp env plugins arg0 w
    = if HasTerraform env w then
        match GetTerraform env w with
        | (Some e, w') => ([ShowHelp], w', inr (Fatal e))
        | (None, w') =>
            (ShowHelp :: Invoke [] :: plugin_help plugins arg0,
             snd (tf_Invoke env [] w'), inr (Exit 1))
        end
      else
        (ShowHelp :: missing_terraform_notice env ++ plugin_help plugins arg0,
         w, inr (Exit 1)).
  Proof.
    unfold showHelp. rewrite emit_then, ask_then.
    destruct (HasTerraform env w).
    - rewrite !bind_assoc_run, call_then.
      destruct (GetTerraform env w) as [[e|] w']; simpl fst; simpl snd.
      + rewrite bind_assoc_run, check_then. reflexivity.
      + rewrite bind_assoc_run, check_then.
        rewrite bind_assoc_run, emit_then.
        rewrite bind_assoc_run, call_then, ret_then.
        unfold bind at 1. rewrite showPluginHelp_run.
        unfold with_prefix. simpl. rewrite app_nil_r. reflexivity.
    - unfold bind at 1. unfold bind at 1.
      rewrite showMissingTerraformHelp_run, showPluginHelp_run.
      unfold with_prefix. simpl. rewrite app_nil_r. reflexivity.
  Qed.

Lemma Forall_help_listing (arg0 : string) :
    Forall help_event (plugin_help plugins arg0).
  Proof.
    unfold plugin_help. apply Forall_app. split.
    - repeat constructor.
    - unfold command_listing. apply Forall_forall. intros e He.
      apply in_flat_map in He. destruct He as (p & _ & He).
      apply in_map_iff in He. destruct He as (cmd & <- & _). exact I.
  Qed.

Lemma showHelp_events (arg0 : string) :
    events_in help_event (showHelp env plugins arg0).
  Proof.
    intros w. rewrite showHelp_run.
    destruct (HasTerraform env w).
    - destruct (GetTerraform env w) as [[e|] w']; unfold trace; simpl.
      + repeat constructor.
      + constructor; [exact I|]. constructor; [reflexivity|].
        apply Forall_help_listing.
    - unfold trace. cbn [fst]. constructor; [exact I|].
      apply Forall_app. split; [repeat constructor|].
      apply Forall_help_listing.
  Qed.

  (** [showHelp] never returns to its caller. *)
Lemma showHelp_halts (arg0 : string) (w : World) :
    exists h, outcome (showHelp env plugins arg0 w) = inr h.
  Proof.
    rewrite showHelp_run. destruct (HasTerraform env w).
    - destruct (GetTerraform env w) as [[e|] w']; eexists; reflexivity.
    - eexists; reflexivity.
  Qed.

Lemma showHelp_starts (arg0 : string) (w : World) :
    In ShowHelp (trace (showHelp env plugins arg0 w)).
  Proof.
    rewrite showHelp_run. destruct (HasTerraform env w).
    - destruct (GetTerraform env w) as [[e|] w']; left; reflexivity.
    - left; reflexivity.
  Qed.

Lemma pre_run_events (args : list string) (ps : list (Plugin World))
        (isInit : bool) :
    events_in (lifecycle_event args) (pre_run ps isInit).
  Proof.
    induction ps as [|p ps IH]; simpl.
    - events_step.
    - repeat events_step. destruct a0; [events_step|exact IH].
  Qed.

Lemma post_run_events (args : list string) (ps : list (Plugin World))
        (err : option error) :
    events_in (lifecycle_event args) (post_run ps err).
  Proof.
    induction ps as [|p ps IH]; simpl.
    - events_step.
    - repeat events_step.
      destruct a0; [destruct err; events_step|exact IH].
  Qed.

Lemma invokeTerraform_events (ps : list (Plugin World))
        (args : list string) :
    events_in (lifecycle_event args) (invokeTerraform env ps args).
  Proof.
    unfold invokeTerraform.
    events_step; [apply pre_run_events|].
    repeat events_step. apply post_run_events.
  Qed.

Lemma loadPlugins_from_events (args : list string)
        (ps loaded : list (Plugin World)) :
    events_in (lifecycle_event args) (loadPlugins_from ps loaded).
  Proof.
    revert loaded. induction ps as [|p ps IH]; intros loaded; simpl.
    - events_step.
    - events_step; [events_step|].
      intros w. destruct (plugin_IsUsed p w) as [[used err] w'].
      revert w'. change (events_in (lifecycle_event args)
        (check err ;;
         if used
         then emit (PrintInfo "Using plugin %s" [GetName p]) ;;
              loadPlugins_from ps (loaded ++ [p])
         else loadPlugins_from ps loaded)).
      events_step; [events_step|].
      destruct used; [|apply IH].
      events_step; [events_step|apply IH].
  Qed.

Lemma forward_events (os_Args : list string) (hasTfFiles : bool) :
    events_in (passthrough_event (tl os_Args))
              (forward_to_terraform env plugins os_Args hasTfFiles).
  Proof.
    assert (Hw : forall e, lifecycle_event (tl os_Args) e ->
                           passthrough_event (tl os_Args) e).
    { intros e. destruct e; simpl; auto. }
    unfold forward_to_terraform.
    apply events_bind; [apply events_call|intros err].
    apply events_bind; [apply events_check|intros _].
    apply events_bind;
      [eapply events_weaken; [exact Hw|apply loadPlugins_from_events]
      |intros loaded].
    apply events_bind;
      [eapply events_weaken; [exact Hw|apply invokeTerraform_events]
      |intros _].
    destruct (negb hasTfFiles); repeat events_step.
  Qed.

Lemma run_plugin_command_events (os_Args : list string) (hasTfFiles : bool)
        (cmd : Command World) :
    events_in (plugin_event (skipn 2 os_Args))
              (run_plugin_command env plugins os_Args hasTfFiles cmd).
  Proof.
    assert (Hw : forall e, lifecycle_event ["init"%string] e ->
                           plugin_event (skipn 2 os_Args) e).
    { intros e. destruct e; simpl; auto; contradiction. }
    unfold run_plugin_command.
    apply events_bind; [apply events_call|intros err].
    apply events_bind; [apply events_check|intros _].
    apply events_bind; [apply events_emit; reflexivity|intros _].
    apply events_bind; [apply events_call|intros err'].
    apply events_bind; [apply events_check|intros _].
    apply events_bind; [apply events_ask|intros now].
    destruct now as [now|e]; [|apply events_halt].
    destruct (negb hasTfFiles && now); [|apply events_ret].
    apply events_bind; [apply events_emit; exact I|intros _].
    apply events_bind; [apply events_emit; exact I|intros _].
    apply events_bind; [apply events_call|intros err''].
    apply events_bind; [apply events_check|intros _].
    apply events_bind;
      [eapply events_weaken; [exact Hw|apply loadPlugins_from_events]
      |intros loaded].
    eapply events_weaken; [exact Hw|apply invokeTerraform_events].
  Qed.
End Shapes.

(** ** The scan for the command *)

Lemma find_command_flags (k : nat) (args : list string) :
  Forall (fun a => Strings.HasPrefix a "-" = true) args ->
  find_command k args = (0, EmptyString).
Proof.
  intros H. revert k. induction H as [|a args Ha _ IH]; intros k; simpl.
  - reflexivity.
  - rewrite Ha. apply IH.
Qed.

Lemma find_command_token (k : nat) (flags : list string) (name : string)
      (rest : list string) :
  Forall (fun a => Strings.HasPrefix a "-" = true) flags ->
  Strings.HasPrefix name "-" = false ->
  find_command k (flags ++ name :: rest) = (k + length flags, name).
Proof.
  intros H Hname. revert k. induction H as [|a flags Ha _ IH]; intros k; simpl.
  - rewrite Hname. f_equal. lia.
  - rewrite Ha, IH. f_equal. lia.
Qed.

(** Either every argument is a flag, or the vector splits at its first
    command token. *)
Lemma first_token (args : list string) :
  Forall (fun a => Strings.HasPrefix a "-" = true) args
  \/ exists flags name rest,
       args = flags ++ name :: rest
       /\ Forall (fun a => Strings.HasPrefix a "-" = true) flags
       /\ Strings.HasPrefix name "-" = false.
Proof.
  induction args as [|a args IH].
  - left. constructor.
  - destruct (Strings.HasPrefix a "-") eqn:E.
    + destruct IH as [H|(flags & name & rest & -> & Hf & Hn)].
      * left. constructor; assumption.
      * right. exists (a :: flags), name, rest.
        repeat split; [constructor|]; assumption.
    + right. exists [], a, args. repeat split; [constructor|assumption].
Qed.

Lemma reserved_is_plain (cmd : string) :
  reserved cmd = true ->
  Strings.Contains cmd "help" = false /\ Strings.HasPrefix cmd "-" = false.
Proof.
  unfold reserved. intros H.
  apply orb_true_iff in H. destruct H as [H|H].
  - apply orb_true_iff in H.
    destruct H as [H|H]; apply String.eqb_eq in H; subst; split; reflexivity.
  - apply String.eqb_eq in H; subst; split; reflexivity.
Qed.

(** ** The routes of [main] *)

Section MainRoutes.
  Context {World Version : Type}.
  Variable env : Collaborators World Version.
  Variable plugins : list (Plugin World).

Lemma early_events (os_Args : list string) :
    events_in upgrade_event (early_upgrade_checks env os_Args).
  Proof.
    unfold early_upgrade_checks.
    destruct (Nat.ltb 1 (length os_Args)); [|apply events_ret].
    destruct (String.eqb _ "wheels-complete-upgrade").
    { apply events_bind; [apply events_emit; exact I|intros _].
      destruct (nth_error os_Args 2); [|apply events_halt].
      apply events_bind; [apply events_emit; exact I|intros _].
      intros w. constructor. }
    destruct (String.eqb _ "wheels-version").
    { apply events_bind; [apply events_emit; exact I|intros _].
      apply events_ret. }
    destruct (String.eqb _ "wheels-upgrade"); [|apply events_ret].
    destruct (semver_MustParse env (buildVersion env)); [|apply events_halt].
    intros w. destruct (GetLatestVersion env w) as [[latest|err] w'].
    - revert w'.
      change (events_in upgrade_event
                (match version_Compare env latest v with
                 | Gt =>
                     emit (PrintInfo "Upgrading from %s to %s"
                             [buildVersion env; version_String env latest]) ;;
                     emit PerformUpgrade ;;
                     err <- call (utils_PerformUpgrade env latest) ;;
                     check err ;;
                     ret true
                 | _ =>
                     emit (PrintInfo "You are running the latest released version" []) ;;
                     ret true
                 end)).
      destruct (version_Compare env latest v); repeat events_step.
    - constructor.
  Qed.

Lemma early_not_reserved (arg0 : string) (args : list string) (w : World) :
    reserved (hd EmptyString args) = false ->
    early_upgrade_checks env (arg0 :: args) w = ([], w, inl false).
  Proof.
    intros H. unfold early_upgrade_checks.
    destruct args as [|a args]; [reflexivity|].
    simpl in H. unfold reserved in H.
    apply orb_false_iff in H. destruct H as [H H3].
    apply orb_false_iff in H. destruct H as [H1 H2].
    cbn [length Nat.ltb Nat.leb nth]. rewrite H1, H2, H3. reflexivity.
  Qed.

  (** A reserved command never leaves the early checks with [false]. *)
Lemma early_reserved (arg0 : string) (args : list string) (w : World) :
    reserved (hd EmptyString args) = true ->
    outcome (early_upgrade_checks env (arg0 :: args) w) <> inl false.
  Proof.
    intros H. unfold early_upgrade_checks.
    destruct args as [|a args]; [discriminate H|].
    simpl in H. unfold reserved in H. cbn [length Nat.ltb Nat.leb nth].
    destruct (String.eqb a "wheels-complete-upgrade").
    { rewrite emit_then, outcome_with_prefix.
      destruct (nth_error (arg0 :: a :: args) 2); [|discriminate].
      rewrite emit_then, outcome_with_prefix. discriminate. }
    destruct (String.eqb a "wheels-version").
    { rewrite emit_then, outcome_with_prefix. discriminate. }
    destruct (String.eqb a "wheels-upgrade"); [|discriminate H].
    destruct (semver_MustParse env (buildVersion env)); [|discriminate].
    destruct (GetLatestVersion env w) as [[latest|err] w']; [|discriminate].
    destruct (version_Compare env latest v).
    - rewrite emit_then, outcome_with_prefix. discriminate.
    - rewrite emit_then, outcome_with_prefix. discriminate.
    - rewrite emit_then, outcome_with_prefix.
      rewrite emit_then, outcome_with_prefix.
      rewrite call_then, check_then.
      destruct (fst (utils_PerformUpgrade env latest w')); discriminate.
  Qed.
End MainRoutes.

Section MainRun.
  Context {World Version : Type}.
  Variable env : Collaborators World Version.
  Variable plugins : list (Plugin World).

  (** With the sandbox open and its status read, [main] is the part its
      route names. *)
Lemma main_route (arg0 : string) (args : list string) (w w1 : World)
        (cwd : string) (hasTfFiles : bool) :
    os_Getwd env w = inl cwd ->
    OpenSandbox env cwd w = (None, w1) ->
    HasTerraformFiles env w1 = inl hasTfFiles ->
    main env plugins (arg0 :: args) w
    = match route plugins args with
      | ToUpgrade => (early_upgrade_checks env (arg0 :: args) ;; ret tt) w
      | ToHelp => showHelp env plugins arg0 w1
      | ToPlugin cmd =>
          run_plugin_command env plugins (arg0 :: args) hasTfFiles cmd w1
      | ToPassthrough =>
          forward_to_terraform env plugins (arg0 :: args) hasTfFiles w1
      end.
  Proof.
    intros Hwd Hopen Hfiles. unfold route.
    destruct (reserved (hd EmptyString args)) eqn:Hres.
    - pose proof (early_reserved env arg0 args w Hres) as Hne.
      unfold main, bind.
      destruct (early_upgrade_checks env (arg0 :: args) w)
        as [[t w'] [[|]|h]]; try reflexivity.
      exfalso. apply Hne. reflexivity.
    - unfold main.
      rewrite (bind_value _ _ w w [] false)
        by (apply early_not_reserved; assumption).
      rewrite with_prefix_nil. cbv beta iota. rewrite Hwd.
      rewrite call_then, Hopen. cbn [fst snd]. rewrite check_then.
      destruct args as [|a args]; [reflexivity|].
      cbn [length Nat.leb nth orb help_requested].
      destruct (Strings.Contains a "help"); [reflexivity|].
      unfold dispatch. rewrite ask_then, Hfiles.
      cbn [length Nat.ltb Nat.leb tl nth].
      unfold isTerraformCommand. cbn [tl].
      destruct (find_command 1 (a :: args)) as [cmd_i cmd_n].
      destruct (Nat.eqb cmd_i 0); [reflexivity|].
      destruct (find_plugin_command plugins cmd_n); [reflexivity|].
      destruct (existsb _ knownTerraformCommands); reflexivity.
  Qed.

Lemma dispatch_events (os_Args : list string) :
    events_in (main_event os_Args) (dispatch env plugins os_Args).
  Proof.
    assert (Hhelp : forall e, help_event e -> main_event os_Args e).
    { intros e. destruct e; simpl; auto; contradiction. }
    assert (Hplug : forall e, plugin_event (skipn 2 os_Args) e ->
                              main_event os_Args e).
    { intros e. destruct e; simpl; auto; contradiction. }
    assert (Hpass : forall e, passthrough_event (tl os_Args) e ->
                              main_event os_Args e).
    { intros e. destruct e; simpl; auto; contradiction. }
    unfold dispatch.
    apply events_bind; [apply events_ask|intros has].
    destruct has as [hasTfFiles|err]; [|apply events_halt].
    destruct (Nat.ltb 1 (length os_Args)).
    - destruct (find_command 1 (tl os_Args)) as [cmd_i cmd_n].
      destruct (Nat.eqb cmd_i 0).
      + eapply events_weaken; [exact Hhelp|apply showHelp_events].
      + destruct (find_plugin_command plugins cmd_n).
        * eapply events_weaken; [exact Hplug|].
          apply run_plugin_command_events.
        * destruct (negb (isTerraformCommand os_Args)).
          -- eapply events_weaken; [exact Hhelp|apply showHelp_events].
          -- eapply events_weaken; [exact Hpass|apply forward_events].
    - eapply events_weaken; [exact Hpass|apply forward_events].
  Qed.

  (** Every event of every run of [main]. *)
Lemma main_events (os_Args : list string) :
    events_in (main_event os_Args) (main env plugins os_Args).
  Proof.
    assert (Hhelp : forall e, help_event e -> main_event os_Args e).
    { intros e. destruct e; simpl; auto; contradiction. }
    assert (Hup : forall e, upgrade_event e -> main_event os_Args e).
    { intros e. destruct e; simpl; auto; contradiction. }
    unfold main.
    apply events_bind;
      [eapply events_weaken; [exact Hup|apply early_events]|intros done].
    destruct done; [apply events_ret|].
    intros w. destruct (os_Getwd env w) as [cwd|err]; [|constructor].
    revert w.
    change (events_in (main_event os_Args)
              (err <- call (OpenSandbox env cwd) ;;
               check err ;;
               if Nat.leb (length os_Args) 1
                  || Strings.Contains (nth 1 os_Args EmptyString) "help"
               then showHelp env plugins (nth 0 os_Args EmptyString)
               else dispatch env plugins os_Args)).
    apply events_bind; [apply events_call|intros err].
    apply events_bind; [apply events_check|intros _].
    destruct (Nat.leb (length os_Args) 1 || _).
    - eapply events_weaken; [exact Hhelp|apply showHelp_events].
    - apply dispatch_events.
  Qed.
End MainRun.

(** ** The plugin lifecycle *)

Lemma count_invokes_app (t1 t2 : list Event) :
  count_invokes (t1 ++ t2) = count_invokes t1 + count_invokes t2.
Proof. unfold count_invokes. rewrite filter_app, length_app. reflexivity. Qed.

Lemma count_invokes_quiet (t : list Event) :
  Forall quiet t -> count_invokes t = 0.
Proof.
  unfold count_invokes. induction 1 as [|e t He _ IH]; [reflexivity|].
  simpl. unfold quiet in He. rewrite He. exact IH.
Qed.

Lemma quiet_not_invoke (t : list Event) (args : list string) :
  Forall quiet t -> ~ In (Invoke args) t.
Proof.
  intros H Hin. rewrite Forall_forall in H. specialize (H _ Hin).
  discriminate H.
Qed.

Section Lifecycle.
  Context {World Version : Type}.
  Variable env : Collaborators World Version.

Lemma pre_run_quiet (ps : list (Plugin World)) (isInit : bool) :
    events_in quiet (pre_run ps isInit).
  Proof.
    induction ps as [|p ps IH]; simpl.
    - apply events_ret.
    - apply events_bind; [apply events_emit; reflexivity|intros _].
      apply events_bind; [apply events_call|intros err].
      destruct err; [apply events_halt|exact IH].
  Qed.

Lemma post_run_quiet (ps : list (Plugin World)) (err : option error) :
    events_in quiet (post_run ps err).
  Proof.
    induction ps as [|p ps IH]; simpl.
    - apply events_ret.
    - apply events_bind; [apply events_emit; reflexivity|intros _].
      apply events_bind; [apply events_call|intros perr].
      destruct perr; [destruct err; apply events_halt|exact IH].
  Qed.

Lemma loadPlugins_from_quiet (ps loaded : list (Plugin World)) :
    events_in quiet (loadPlugins_from ps loaded).
  Proof.
    revert loaded. induction ps as [|p ps IH]; intros loaded; simpl.
    - apply events_ret.
    - apply events_bind; [apply events_emit; reflexivity|intros _].
      intros w. destruct (plugin_IsUsed p w) as [[used err] w'].
      revert w'. change (events_in quiet
        (check err ;;
         if used
         then emit (PrintInfo "Using plugin %s" [GetName p]) ;;
              loadPlugins_from ps (loaded ++ [p])
         else loadPlugins_from ps loaded)).
      apply events_bind; [apply events_check|intros _].
      destruct used; [|apply IH].
      apply events_bind; [apply events_emit; reflexivity|intros _]. apply IH.
  Qed.



  (** The pre-hooks that ran and succeeded: one event each, in order. *)
Lemma pre_run_success (ps : list (Plugin World)) (isInit : bool)
        (w w' : World) (t : list Event) :
    pre_run ps isInit w = (t, w', inl tt) ->
    t = map (fun q => BeforeRun (GetName q) isInit) ps.
  Proof.
    revert w t. induction ps as [|p ps IH]; intros w t; simpl.
    - intros H. inversion H. reflexivity.
    - rewrite emit_then, call_then.
      destruct (fst (plugin_BeforeRun p isInit w)); [discriminate|].
      destruct (pre_run ps isInit (snd (plugin_BeforeRun p isInit w)))
        as [[t1 w1] o] eqn:E.
      unfold with_prefix, trace, world, outcome. simpl.
      intros H. inversion H. subst. f_equal. eapply IH. exact E.
  Qed.

Lemma pre_run_app (before rest : list (Plugin World)) (isInit : bool)
        (w w1 : World) (t0 : list Event) :
    pre_run before isInit w = (t0, w1, inl tt) ->
    pre_run (before ++ rest) isInit w
    = with_prefix t0 (pre_run rest isInit w1).
  Proof.
    revert w t0. induction before as [|p before IH]; intros w t0; simpl.
    - intros H. inversion H. subst. symmetry. apply with_prefix_nil.
    - rewrite !emit_then, !call_then.
      destruct (fst (plugin_BeforeRun p isInit w)); [discriminate|].
      destruct (pre_run before isInit (snd (plugin_BeforeRun p isInit w)))
        as [[t1 w2] o] eqn:E.
      unfold with_prefix at 1. unfold trace, world, outcome. simpl.
      intros H. inversion H. subst.
      rewrite (IH _ _ E). rewrite with_prefix_app. reflexivity.
  Qed.

End Lifecycle.

(** C7.  If the pre-hook of a plugin returns an error during a lifecycle
    run (the pre-hooks of the plugins before it having succeeded), the run
    ends fatally with the message ["Could not start <plugin>: <error>"],
    its events are the pre-hook calls up to the failing one, so the
    external tool is never invoked and no post-hook runs, not even those
    of the plugins before the failing one. *)
Theorem C7_pre_hook_failure_aborts :
  forall (World Version : Type) (env : Collaborators World Version)
         (before : list (Plugin World)) (p : Plugin World)
         (after : list (Plugin World)) (args : list string)
         (w w1 w2 : World) (t0 : list Event) (e : error),
    let isInit := existsb (fun arg => String.eqb arg "init") args in
    pre_run before isInit w = (t0, w1, inl tt) ->
    plugin_BeforeRun p isInit w1 = (Some e, w2) ->
    let r := invokeTerraform env (before ++ p :: after) args w in
    outcome r = inr (Fatal ("Could not start " ++ GetName p ++ ": " ++ e)%string)
    /\ trace r = map (fun q => BeforeRun (GetName q) isInit) (before ++ [p])
    /\ world r = w2
    /\ (forall a, ~ In (Invoke a) (trace r))
    /\ (forall n err, ~ In (AfterRun n err) (trace r)).
Proof.
  intros World Version env before p after args w w1 w2 t0 e isInit
         Hbefore Hfail r.
  assert (Hr : r = (map (fun q => BeforeRun (GetName q) isInit) (before ++ [p]),
                    w2,
                    inr (Fatal ("Could not start " ++ GetName p ++ ": " ++ e)%string))).
  { unfold r, invokeTerraform. fold isInit.
    apply bind_halt.
    rewrite (pre_run_app before (p :: after) isInit w w1 t0 Hbefore).
    simpl pre_run. rewrite emit_then, call_then, Hfail. cbn [fst snd].
    rewrite with_prefix_app.
    rewrite (pre_run_success before isInit w w1 t0 Hbefore).
    rewrite map_app. unfold with_prefix, trace, world, outcome.
    cbn [FatalError halt fst snd]. rewrite app_nil_r. reflexivity. }
  rewrite Hr. unfold outcome, trace, world. cbn [fst snd].
  repeat split.
  - intros a Hin. apply in_map_iff in Hin. destruct Hin as (q & Hq & _).
    discriminate Hq.
  - intros n err Hin. apply in_map_iff in Hin. destruct Hin as (q & Hq & _).
    discriminate Hq.
Qed.

Lemma C7_pre_hook_failure_aborts_witness :
  outcome (invokeTerraform sample_env
             [service_plugin; agent_plugin; provider_plugin]
             ["plan"%string] true)
  = inr (Fatal "Could not start ssh-agent: no agent").
Proof.
  exact (proj1 (C7_pre_hook_failure_aborts
                  SampleWorld nat sample_env [service_plugin] agent_plugin
                  [provider_plugin] ["plan"%string] true true true
                  [BeforeRun "service" false] "no agent"%string
                  eq_refl eq_refl)).
Defined.

(** C8, the behaviour of the code.  When the post-hook of a plugin returns
    an error, the message is built from the result of the delegated run
    and not from the post-hook's error: if the delegated run failed with
    [e], the process ends fatally with ["Could not finalize <plugin>: "]
    followed by [e]; if the delegated run succeeded, reading its nil error
    panics and no message naming the plugin is produced. *)
Theorem C8_post_hook_failure_reports_delegation_error :
  forall (World : Type) (p : Plugin World) (rest : list (Plugin World))
         (err : option error) (perr : error) (w w' : World),
    plugin_AfterRun p err w = (Some perr, w') ->
    post_run (p :: rest) err w
    = ([AfterRun (GetName p) err], w',
       inr (match err with
            | Some e =>
                Fatal ("Could not finalize " ++ GetName p ++ ": " ++ e)%string
            | None =>
                Panic "invalid memory address or nil pointer dereference"
            end)).
Proof.
  intros World p rest err perr w w' H.
  simpl post_run. rewrite emit_then, call_then, H. cbn [fst snd].
  destruct err; reflexivity.
Qed.

Lemma C8_post_hook_failure_reports_delegation_error_witness :
  post_run [provider_plugin] None true
  = ([AfterRun "provider" None], true,
     inr (Panic "invalid memory address or nil pointer dereference"))
  /\ post_run [provider_plugin] (Some "exit status 1"%string) true
     = ([AfterRun "provider" (Some "exit status 1"%string)], true,
        inr (Fatal "Could not finalize provider: exit status 1")).
Proof.
  split.
  - exact (C8_post_hook_failure_reports_delegation_error
             SampleWorld provider_plugin [] None "boom"%string true true
             eq_refl).
  - exact (C8_post_hook_failure_reports_delegation_error
             SampleWorld provider_plugin [] (Some "exit status 1"%string)
             "boom"%string true true eq_refl).
Defined.

(** ** Plugin dispatch (C5) *)

(** C5, the behaviour of the code.  Whatever the argument vector, a
    command handler that [main] invokes receives [os.Args[2:]]: the
    arguments after the command name only when the command is the first
    argument, and the command name itself with what follows it when one
    flag precedes it. *)
Theorem C5_handler_receives_arguments_from_index_two :
  forall (World Version : Type) (env : Collaborators World Version)
         (plugins : list (Plugin World)) (os_Args : list string) (w : World)
         (name : string) (hargs : list string),
    In (Handle name hargs) (trace (main env plugins os_Args w)) ->
    hargs = skipn 2 os_Args.
Proof.
  intros World Version env plugins os_Args w name hargs Hin.
  pose proof (main_events env plugins os_Args w) as H.
  rewrite Forall_forall in H. exact (H _ Hin).
Qed.

Lemma C5_handler_receives_arguments_from_index_two_witness :
  effective_command ["-v"; "add-service"; "x"]%string = "add-service"%string
  /\ In (Handle "add-service" ["add-service"; "x"]%string)
        (trace (main sample_env sample_plugins
                     ["tf"; "-v"; "add-service"; "x"]%string false))
  /\ ["add-service"; "x"]%string
     = skipn 2 ["tf"; "-v"; "add-service"; "x"]%string.
Proof.
  split; [reflexivity|].
  split; [left; reflexivity|].
  apply (C5_handler_receives_arguments_from_index_two
           SampleWorld nat sample_env sample_plugins
           ["tf"; "-v"; "add-service"; "x"]%string false
           "add-service"%string).
  left. reflexivity.
Defined.

(** ** Help mode (C3) *)

Lemma isTerraformCommand_iff (arg0 : string) (args : list string) :
  isTerraformCommand (arg0 :: args) = true
  <-> exists a, In a args /\ In a knownTerraformCommands.
Proof.
  unfold isTerraformCommand. cbn [tl]. rewrite existsb_exists. split.
  - intros (cmd & Hcmd & H). apply existsb_exists in H.
    destruct H as (a & Ha & Heq). apply String.eqb_eq in Heq. subst.
    exists cmd. split; assumption.
  - intros (a & Ha & Hk). exists a. split; [exact Hk|].
    apply existsb_exists. exists a. split; [exact Ha|].
    apply String.eqb_refl.
Qed.

(** The effective command of a vector with a token that lacks a dash
    prefix is the first such token. *)
Lemma effective_command_first_token (args : list string) :
  existsb is_command_token args = true ->
  exists flags rest,
    args = flags ++ effective_command args :: rest
    /\ Forall (fun a => Strings.HasPrefix a "-" = true) flags
    /\ Strings.HasPrefix (effective_command args) "-" = false.
Proof.
  intros Htok.
  destruct (first_token args)
    as [Hall|(flags & name & rest & Hsplit & Hflags & Hname)].
  - exfalso. apply existsb_exists in Htok. destruct Htok as (a & Ha & Hd).
    rewrite Forall_forall in Hall. unfold is_command_token in Hd.
    rewrite (Hall a Ha) in Hd. discriminate.
  - assert (Heff : effective_command args = name).
    { unfold effective_command.
      rewrite Hsplit, find_command_token by assumption. reflexivity. }
    exists flags, rest. rewrite Heff. auto.
Qed.

Section HelpMode.
  Context {World Version : Type}.
  Variable env : Collaborators World Version.
  Variable plugins : list (Plugin World).

Lemma not_in_by_shape {A : Type} (P : Event -> Prop) (m : M World A)
        (w : World) (e : Event) :
    events_in P m -> ~ P e -> ~ In e (trace (m w)).
  Proof.
    intros Hm HP Hin. specialize (Hm w). rewrite Forall_forall in Hm.
    exact (HP (Hm _ Hin)).
  Qed.

  (** Help mode is entered exactly on the help route. *)
Lemma help_iff_route (arg0 : string) (args : list string) (w w1 : World)
        (cwd : string) (hasTfFiles : bool) :
    os_Getwd env w = inl cwd ->
    OpenSandbox env cwd w = (None, w1) ->
    HasTerraformFiles env w1 = inl hasTfFiles ->
    (In ShowHelp (trace (main env plugins (arg0 :: args) w))
     <-> route plugins args = ToHelp).
  Proof.
    intros Hwd Hopen Hfiles.
    rewrite (main_route env plugins arg0 args w w1 cwd hasTfFiles)
      by assumption.
    destruct (route plugins args) as [| |cmd|].
    - split; [|discriminate]. intros Hin. exfalso. revert Hin.
      apply (not_in_by_shape upgrade_event); [|exact (fun H => H)].
      apply events_bind; [apply early_events|intros; apply events_ret].
    - split; [reflexivity|]. intros _. apply showHelp_starts.
    - split; [|discriminate]. intros Hin. exfalso. revert Hin.
      apply (not_in_by_shape (plugin_event (skipn 2 (arg0 :: args))));
        [|exact (fun H => H)].
      apply run_plugin_command_events.
    - split; [|discriminate]. intros Hin. exfalso. revert Hin.
      apply (not_in_by_shape (passthrough_event (tl (arg0 :: args))));
        [|exact (fun H => H)].
      apply forward_events.
  Qed.

  (** The help route in terms of the tests of [main]. *)
Lemma route_help_exact (args : list string) :
    route plugins args = ToHelp
    <-> reserved (hd EmptyString args) = false
        /\ (help_requested args = true
            \/ Forall (fun a => Strings.HasPrefix a "-" = true) args
            \/ (find_plugin_command plugins (effective_command args) = None
                /\ isTerraformCommand (EmptyString :: args) = false)).
  Proof.
    unfold route, effective_command.
    destruct (reserved (hd EmptyString args)) eqn:Hres.
    { split; [discriminate|]. intros [H _]. discriminate H. }
    destruct (help_requested args) eqn:Hreq.
    { split; [auto|reflexivity]. }
    destruct (first_token args)
      as [Hflags|(flags & name & rest & Hsplit & Hflags & Hname)].
    { rewrite find_command_flags by assumption. simpl.
      split; [auto|reflexivity]. }
    assert (Hnot : ~ Forall (fun a => Strings.HasPrefix a "-" = true) args).
    { intros Hall. rewrite Forall_forall in Hall.
      assert (Hin : In name args)
        by (rewrite Hsplit; apply in_or_app; right; left; reflexivity).
      rewrite (Hall name Hin) in Hname. discriminate. }
    rewrite Hsplit, find_command_token by assumption. cbn [snd].
    replace (Nat.eqb (1 + length flags) 0) with false by reflexivity.
    rewrite <- Hsplit.
    destruct (find_plugin_command plugins name) as [cmd|].
    { split; [discriminate|].
      intros [_ [H|[H|[H _]]]]; [discriminate H|contradiction|discriminate H]. }
    destruct (isTerraformCommand (EmptyString :: args)).
    - split; [discriminate|].
      intros [_ [H|[H|[_ H]]]]; [discriminate H|contradiction|discriminate H].
    - split; [auto|reflexivity].
  Qed.

  (** Vectors that take the help route. *)
Lemma route_help_when (args : list string) :
    args = []
    \/ Strings.Contains (hd EmptyString args) "help" = true
    \/ (forall a, In a args -> Strings.HasPrefix a "-" = true)
    \/ (reserved (hd EmptyString args) = false
        /\ find_plugin_command plugins (effective_command args) = None
        /\ forall a, In a args -> ~ In a knownTerraformCommands) ->
    route plugins args = ToHelp.
  Proof.
    intros H. apply route_help_exact.
    destruct H as [->|[Hhelp|[Hall|(Hres & Hnone & Hknown)]]].
    - split; [reflexivity|left; reflexivity].
    - split.
      + destruct (reserved (hd EmptyString args)) eqn:Hres; [|reflexivity].
        destruct (reserved_is_plain _ Hres) as [Hno _]. congruence.
      + left. destruct args as [|a args]; [reflexivity|exact Hhelp].
    - destruct args as [|a args].
      + split; [reflexivity|left; reflexivity].
      + split.
        * destruct (reserved (hd EmptyString (a :: args))) eqn:Hres;
            [|reflexivity].
          destruct (reserved_is_plain _ Hres) as [_ Hno]. simpl in Hno.
          rewrite (Hall a (or_introl eq_refl)) in Hno. discriminate.
        * right. left. apply Forall_forall. exact Hall.
    - split; [exact Hres|]. right. right. split; [exact Hnone|].
      destruct (isTerraformCommand (EmptyString :: args)) eqn:E;
        [|reflexivity].
      apply isTerraformCommand_iff in E. destruct E as (a & Ha & Hk).
      exfalso. exact (Hknown a Ha Hk).
  Qed.

  (** The help route is taken by no other vectors than these. *)
Lemma route_help_only (args : list string) :
    route plugins args = ToHelp ->
    args = []
    \/ (exists a, In a args /\ Strings.Contains a "help" = true)
    \/ (forall a, In a args -> Strings.HasPrefix a "-" = true)
    \/ (find_plugin_command plugins (effective_command args) = None
        /\ ~ In (effective_command args) knownTerraformCommands).
  Proof.
    intros H. apply route_help_exact in H.
    destruct H as [_ [Hreq|[Hall|[Hnone Htf]]]].
    - destruct args as [|a args]; [left; reflexivity|].
      right. left. exists a. split; [left; reflexivity|exact Hreq].
    - right. right. left. rewrite Forall_forall in Hall. exact Hall.
    - destruct (first_token args)
        as [Hall|(flags & name & rest & Hsplit & Hflags & Hname)].
      + right. right. left. rewrite Forall_forall in Hall. exact Hall.
      + right. right. right. split; [exact Hnone|].
        assert (Heff : effective_command args = name).
        { unfold effective_command.
          rewrite Hsplit, find_command_token by assumption. reflexivity. }
        rewrite Heff. intros Hk.
        assert (Hin : In name args)
          by (rewrite Hsplit; apply in_or_app; right; left; reflexivity).
        assert (Ht : isTerraformCommand (EmptyString :: args) = true)
          by (apply isTerraformCommand_iff; exists name; auto).
        congruence.
  Qed.
End HelpMode.

(** C3, amended.  With the sandbox open, [main] enters help mode when the
    argument vector (argument 0 excluded) is empty, or its first argument
    contains ["help"], or no argument lacks a dash prefix, or the first
    argument is not a reserved command, the effective command names no
    plugin command and no argument is a known passthrough command.  It
    enters help mode only when the vector is empty, or some argument
    contains ["help"], or no argument lacks a dash prefix, or the
    effective command is neither a plugin command nor a known passthrough
    command.  In help mode the whole run is the help screen: it ends
    fatally if the tool that is present cannot be obtained, and otherwise
    prints the tool's own help (or, the tool missing, the notice that it
    is), then the two reserved commands and every plugin command with
    name and description in registration order, and exits with
    status 1. *)
Theorem C3_help_mode :
  forall (World Version : Type) (env : Collaborators World Version)
         (plugins : list (Plugin World)) (arg0 : string)
         (args : list string) (w w1 : World) (cwd : string)
         (hasTfFiles : bool),
    os_Getwd env w = inl cwd ->
    OpenSandbox env cwd w = (None, w1) ->
    HasTerraformFiles env w1 = inl hasTfFiles ->
    let r := main env plugins (arg0 :: args) w in
    (args = []
     \/ Strings.Contains (hd EmptyString args) "help" = true
     \/ (forall a, In a args -> Strings.HasPrefix a "-" = true)
     \/ (reserved (hd EmptyString args) = false
         /\ find_plugin_command plugins (effective_command args) = None
         /\ forall a, In a args -> ~ In a knownTerraformCommands) ->
     In ShowHelp (trace r))
    /\ (In ShowHelp (trace r) ->
        args = []
        \/ (exists a, In a args /\ Strings.Contains a "help" = true)
        \/ (forall a, In a args -> Strings.HasPrefix a "-" = true)
        \/ (find_plugin_command plugins (effective_command args) = None
            /\ ~ In (effective_command args) knownTerraformCommands))
    /\ (In ShowHelp (trace r) ->
        r = if HasTerraform env w1 then
              match GetTerraform env w1 with
              | (Some e, w') => ([ShowHelp], w', inr (Fatal e))
              | (None, w') =>
                  (ShowHelp :: Invoke [] :: plugin_help plugins arg0,
                   snd (tf_Invoke env [] w'), inr (Exit 1))
              end
            else
              (ShowHelp :: missing_terraform_notice env
                 ++ plugin_help plugins arg0,
               w1, inr (Exit 1))).
Proof.
  intros World Version env plugins arg0 args w w1 cwd hasTfFiles
         Hwd Hopen Hfiles r.
  pose proof (help_iff_route env plugins arg0 args w w1 cwd hasTfFiles
                             Hwd Hopen Hfiles) as Hroute.
  fold r in Hroute. split; [|split].
  - intros H. apply Hroute. apply route_help_when. exact H.
  - intros Hin. apply Hroute in Hin. apply (route_help_only plugins).
    exact Hin.
  - intros Hin. apply Hroute in Hin.
    unfold r.
    rewrite (main_route env plugins arg0 args w w1 cwd hasTfFiles)
      by assumption.
    rewrite Hin. apply showHelp_run.
Qed.

Lemma C3_help_mode_witness :
  In ShowHelp (trace (main sample_env sample_plugins
                           ["tf"; "-x"; "--help"]%string true)).
Proof.
  refine (proj1 (C3_help_mode SampleWorld nat sample_env sample_plugins
                   "tf"%string ["-x"; "--help"]%string true true
                   "/work"%string true eq_refl eq_refl eq_refl) _).
  right. right. left.
  intros a [<-|[<-|[]]]; reflexivity.
Defined.

(** C3 as stated fails: the vector [foo] is not empty, none of its
    arguments contains ["help"], and its argument lacks a dash prefix, yet
    [main] enters help mode, since [foo] is neither a plugin command nor a
    known passthrough command. *)
Lemma C3_counterexample :
  In ShowHelp (trace (main sample_env sample_plugins
                           ["tf"; "foo"]%string true))
  /\ ["foo"%string] <> []
  /\ existsb (fun a => Strings.Contains a "help") ["foo"%string] = false
  /\ existsb is_command_token ["foo"%string] = true
  /\ outcome (main sample_env sample_plugins ["tf"; "foo"]%string true)
     = inr (Exit 1).
Proof.
  split; [left; reflexivity|].
  split; [discriminate|].
  repeat split; reflexivity.
Qed.

(** ** Passthrough (C4) and the first scaffold (C9) *)

Section Delegation.
  Context {World Version : Type}.
  Variable env : Collaborators World Version.
  Variable plugins : list (Plugin World).

Lemma trace_bind_incl {A B : Type} (m : M World A) (k : A -> M World B)
        (w : World) (e : Event) :
    In e (trace (m w)) -> In e (trace (bind m k w)).
  Proof.
    unfold bind, trace. destruct (m w) as [[t w1] [a|h]]; simpl; [|auto].
    destruct (k a w1) as [[t' w2] r]. simpl. intros H.
    apply in_or_app. left. exact H.
  Qed.

Lemma outcome_bind_halt {A B : Type} (m : M World A) (k : A -> M World B)
        (w : World) (h : Halt) :
    outcome (m w) = inr h -> outcome (bind m k w) = inr h.
  Proof.
    unfold bind, outcome. destruct (m w) as [[t w1] [a|h']]; simpl.
    - discriminate.
    - intros H. inversion H. reflexivity.
  Qed.

  (** What follows a computation adds no delegation when it is quiet. *)
Lemma count_invokes_bind {A B : Type} (m : M World A) (k : A -> M World B)
        (w : World) :
    (forall a, events_in quiet (k a)) ->
    count_invokes (trace (bind m k w)) = count_invokes (trace (m w)).
  Proof.
    intros Hk. unfold bind, trace.
    destruct (m w) as [[t w1] [a|h]]; cbn [fst]; [|reflexivity].
    pose proof (Hk a w1) as Hq. unfold trace in Hq.
    destruct (k a w1) as [[t' w2] o]. cbn [fst] in *.
    rewrite count_invokes_app, (count_invokes_quiet t') by exact Hq. lia.
  Qed.

  (** Loading the plugins and running the lifecycle on [args], when every
      usage check and every pre-hook succeeds: the usage checks, the
      pre-hooks, the delegation, the post-hooks; one delegation. *)
Lemma lifecycle_run (args : list string) (w w1 w2 : World)
        (tload tpre : list Event) (loaded : list (Plugin World)) :
    loadPlugins plugins w = (tload, w1, inl loaded) ->
    pre_run loaded (existsb (fun arg => String.eqb arg "init") args) w1
    = (tpre, w2, inl tt) ->
    let r := (loaded <- loadPlugins plugins ;;
              invokeTerraform env loaded args) w in
    r = with_prefix (tload ++ tpre ++ [Invoke args])
                    (post_run loaded (fst (tf_Invoke env args w2))
                              (snd (tf_Invoke env args w2)))
    /\ count_invokes (trace r) = 1
    /\ In (Invoke args) (trace r).
  Proof.
    intros Hload Hpre. cbv zeta.
    assert (Hr : (loaded <- loadPlugins plugins ;;
                  invokeTerraform env loaded args) w
                 = with_prefix (tload ++ tpre ++ [Invoke args])
                     (post_run loaded (fst (tf_Invoke env args w2))
                               (snd (tf_Invoke env args w2)))).
    { rewrite (bind_value _ _ w w1 tload loaded Hload).
      unfold invokeTerraform.
      rewrite (bind_value _ _ w1 w2 tpre tt Hpre).
      rewrite emit_then, call_then, !with_prefix_app, <- app_assoc.
      reflexivity. }
    split; [exact Hr|]. rewrite Hr, trace_with_prefix.
    assert (Hq1 : Forall quiet tload).
    { pose proof (loadPlugins_from_quiet plugins [] w) as H.
      unfold loadPlugins in Hload. rewrite Hload in H. exact H. }
    assert (Hq2 : Forall quiet tpre).
    { pose proof (pre_run_quiet loaded
                    (existsb (fun arg => String.eqb arg "init") args) w1)
        as H.
      rewrite Hpre in H. exact H. }
    split.
    - rewrite !count_invokes_app.
      rewrite (count_invokes_quiet tload) by exact Hq1.
      rewrite (count_invokes_quiet tpre) by exact Hq2.
      rewrite (count_invokes_quiet (trace _)) by apply post_run_quiet.
      reflexivity.
    - apply in_or_app. left. apply in_or_app. right.
      apply in_or_app. right. left. reflexivity.
  Qed.





  (** The closing hint of the passthrough path is quiet. *)
Lemma closing_quiet (os_Args : list string) (hasTfFiles : bool) :
    @events_in World unit quiet
      (if negb hasTfFiles then
         let arg0 := nth 0 os_Args EmptyString in
         emit (Println EmptyString) ;;
         emit (Printf "Consider running %s add-aws-cluster if you are trying to\n" [arg0]) ;;
         emit (Printf "launch a DC/OS cluster. Or %s -help to see all options\n" [arg0])
       else ret tt).
  Proof.
    destruct hasTfFiles; cbn [negb]; [apply events_ret|].
    cbv zeta.
    apply events_bind; [apply events_emit; reflexivity|intros _].
    apply events_bind; [apply events_emit; reflexivity|intros _].
    apply events_emit; reflexivity.
  Qed.

  (** The passthrough path, when the tool is obtained and every usage
      check and pre-hook succeeds: the full vector is delegated once. *)
Lemma forward_delegates (os_Args : list string) (hasTfFiles : bool)
        (w w1 w2 w3 : World) (tload tpre : list Event)
        (loaded : list (Plugin World)) :
    GetTerraform env w = (None, w1) ->
    loadPlugins plugins w1 = (tload, w2, inl loaded) ->
    pre_run loaded (existsb (fun arg => String.eqb arg "init") (tl os_Args))
            w2 = (tpre, w3, inl tt) ->
    let r := forward_to_terraform env plugins os_Args hasTfFiles w in
    count_invokes (trace r) = 1 /\ In (Invoke (tl os_Args)) (trace r).
  Proof.
    intros Htf Hload Hpre. cbv zeta. unfold forward_to_terraform.
    rewrite call_then, Htf. cbn [fst snd]. rewrite check_then.
    rewrite <- bind_assoc_run.
    destruct (lifecycle_run (tl os_Args) w1 w2 w3 tload tpre loaded
                            Hload Hpre) as (_ & Hc & Hin).
    cbv zeta in Hc, Hin. split.
    - rewrite count_invokes_bind; [exact Hc|].
      intros _. apply closing_quiet.
    - apply trace_bind_incl. exact Hin.
  Qed.
End Delegation.

(** C4, the behaviour of the code.  The effective command name of a vector
    with a token that lacks a dash prefix is the first such token.  The
    passthrough test of [main] does not look at that name: it holds when
    some argument of the vector equals a known passthrough command.  With
    the sandbox open, the first argument neither reserved nor containing
    ["help"], and the effective command naming no plugin command, [main]
    takes the passthrough path with the full original vector exactly when
    that test holds, and shows the help otherwise; on the passthrough
    path, when the tool is obtained and every usage check and pre-hook
    succeeds, the full vector is delegated exactly once.  So the vector
    [foo plan] is delegated although [foo] is not a known command. *)
Theorem C4_passthrough_tests_every_argument :
  forall (World Version : Type) (env : Collaborators World Version)
         (plugins : list (Plugin World)) (arg0 : string)
         (args : list string),
    (existsb is_command_token args = true ->
     exists flags rest,
       args = flags ++ effective_command args :: rest
       /\ Forall (fun a => Strings.HasPrefix a "-" = true) flags
       /\ Strings.HasPrefix (effective_command args) "-" = false)
    /\ (isTerraformCommand (arg0 :: args) = true
        <-> exists a, In a args /\ In a knownTerraformCommands)
    /\ (forall (w w1 : World) (cwd : string) (hasTfFiles : bool),
           os_Getwd env w = inl cwd ->
           OpenSandbox env cwd w = (None, w1) ->
           HasTerraformFiles env w1 = inl hasTfFiles ->
           reserved (hd EmptyString args) = false ->
           help_requested args = false ->
           existsb is_command_token args = true ->
           find_plugin_command plugins (effective_command args) = None ->
           let r := main env plugins (arg0 :: args) w in
           r = (if isTerraformCommand (arg0 :: args)
                then forward_to_terraform env plugins (arg0 :: args)
                                          hasTfFiles
                else showHelp env plugins arg0) w1
           /\ (In (Invoke args) (trace r) ->
               exists a, In a args /\ In a knownTerraformCommands)
           /\ ((exists a, In a args /\ In a knownTerraformCommands) ->
               forall (w2 w3 w4 : World) (tload tpre : list Event)
                      (loaded : list (Plugin World)),
                 GetTerraform env w1 = (None, w2) ->
                 loadPlugins plugins w2 = (tload, w3, inl loaded) ->
                 pre_run loaded
                         (existsb (fun arg => String.eqb arg "init") args)
                         w3 = (tpre, w4, inl tt) ->
                 count_invokes (trace r) = 1
                 /\ In (Invoke args) (trace r))).
Proof.
  intros World Version env plugins arg0 args.
  split; [apply effective_command_first_token|].
  split; [apply isTerraformCommand_iff|].
  intros w w1 cwd hasTfFiles Hwd Hopen Hfiles Hres Hreq Htok Hnone r.
  destruct (effective_command_first_token args Htok)
    as (flags & rest & Hsplit & Hflags & Hname).
  assert (Hr : r = (if isTerraformCommand (arg0 :: args)
                    then forward_to_terraform env plugins (arg0 :: args)
                                              hasTfFiles
                    else showHelp env plugins arg0) w1).
  { unfold r.
    rewrite (main_route env plugins arg0 args w w1 cwd hasTfFiles)
      by assumption.
    unfold route. rewrite Hres, Hreq.
    unfold effective_command in Hnone, Hsplit, Hname.
    destruct (find_command 1 args) as [cmd_i cmd_n] eqn:E.
    cbn [snd] in Hnone, Hsplit, Hname.
    assert (Hi : cmd_i = 1 + length flags).
    { rewrite Hsplit, find_command_token in E by assumption.
      inversion E. reflexivity. }
    rewrite Hi, Hnone.
    change (isTerraformCommand (EmptyString :: args))
      with (isTerraformCommand (arg0 :: args)).
    destruct (isTerraformCommand (arg0 :: args)); reflexivity. }
  split; [exact Hr|]. split.
  - intros Hin. apply (isTerraformCommand_iff arg0).
    destruct (isTerraformCommand (arg0 :: args)); [reflexivity|].
    exfalso. rewrite Hr in Hin.
    pose proof (showHelp_events env plugins arg0 w1) as Hev.
    rewrite Forall_forall in Hev. specialize (Hev _ Hin). simpl in Hev.
    rewrite Hev in Hsplit. destruct flags; discriminate Hsplit.
  - intros Hk w2 w3 w4 tload tpre loaded Htf Hload Hpre.
    apply (isTerraformCommand_iff arg0) in Hk. rewrite Hr, Hk.
    exact (forward_delegates env plugins (arg0 :: args) hasTfFiles
                             w1 w2 w3 w4 tload tpre loaded Htf Hload Hpre).
Qed.

Lemma C4_passthrough_tests_every_argument_witness :
  effective_command ["foo"; "plan"]%string = "foo"%string
  /\ find_plugin_command sample_plugins "foo" = None
  /\ existsb (String.eqb "foo") knownTerraformCommands = false
  /\ count_invokes (trace (main sample_env sample_plugins
                                ["tf"; "foo"; "plan"]%string true)) = 1
  /\ In (Invoke ["foo"; "plan"]%string)
        (trace (main sample_env sample_plugins
                     ["tf"; "foo"; "plan"]%string true)).
Proof.
  split; [reflexivity|]. split; [reflexivity|]. split; [reflexivity|].
  refine (proj2 (proj2 (proj2 (proj2
            (C4_passthrough_tests_every_argument
               SampleWorld nat sample_env sample_plugins "tf"%string
               ["foo"; "plan"]%string))
            true true "/work"%string true
            eq_refl eq_refl eq_refl eq_refl eq_refl eq_refl eq_refl))
            _ true true true
            [IsUsed "service"; PrintInfo "Using plugin %s" ["service"%string]]
            [BeforeRun "service" false] [service_plugin]
            eq_refl eq_refl eq_refl).
  exists "plan"%string. split; [right; left; reflexivity|].
  unfold knownTerraformCommands. simpl. auto 15.
Defined.




(** * Further properties of the code *)

Import HelpText.

(** ** Strings *)

Lemma string_append_assoc (a b c : string) :
  ((a ++ b) ++ c)%string = (a ++ b ++ c)%string.
Proof. induction a as [|ch a IH]; simpl; [reflexivity|]. rewrite IH. reflexivity. Qed.

Lemma string_length_append (a b : string) :
  String.length (a ++ b) = String.length a + String.length b.
Proof. induction a as [|ch a IH]; simpl; [reflexivity|]. rewrite IH. reflexivity. Qed.

Lemma join_glued (sep a b : string) (l rest : list string) :
  String.concat sep (l ++ (a ++ sep ++ b)%string :: rest)
  = String.concat sep (l ++ a :: b :: rest).
Proof.
  induction l as [|x l IH].
  - simpl. destruct rest as [|r rest].
    + reflexivity.
    + rewrite !string_append_assoc. reflexivity.
  - destruct l as [|y l].
    + simpl in *. rewrite IH. reflexivity.
    + change (String.concat sep ((x :: y :: l) ++ (a ++ sep ++ b)%string :: rest))
        with (x ++ sep ++ String.concat sep ((y :: l) ++ (a ++ sep ++ b)%string :: rest))%string.
      rewrite IH. reflexivity.
Qed.

(** ** [wrapLongLines] *)

Section WrapFacts.
Variable strings_Fields : string -> list string.
Variable strings_TrimSpace : string -> string.

Lemma wrap_loop_unwords (lineWidth : Z) (words ret : list string)
      (wrapped : string) (spaceLeft : Z) :
  unwords (wrap_loop lineWidth words ret wrapped spaceLeft)
  = unwords (ret ++ wrapped :: words).
Proof.
  revert ret wrapped spaceLeft.
  induction words as [|word rest IH]; intros ret wrapped spaceLeft; simpl.
  - reflexivity.
  - destruct (spaceLeft <? wrap64 (len_string word + 1))%Z; rewrite IH.
    + rewrite <- app_assoc. reflexivity.
    + unfold unwords, Strings.Join.
      exact (join_glued " " wrapped word ret rest).
Qed.

Lemma wrap_loop_nonempty (lineWidth : Z) (words ret : list string)
      (wrapped : string) (spaceLeft : Z) :
  exists line lines,
    wrap_loop lineWidth words ret wrapped spaceLeft = line :: lines.
Proof.
  revert ret wrapped spaceLeft.
  induction words as [|word rest IH]; intros ret wrapped spaceLeft; simpl.
  - destruct ret as [|r ret]; simpl; eauto.
  - destruct (spaceLeft <? wrap64 (len_string word + 1))%Z; apply IH.
Qed.

Lemma wrapLongLines_nonempty (text : string) (lineWidth : Z) :
  exists line lines,
    wrapLongLines strings_Fields strings_TrimSpace text lineWidth
    = line :: lines.
Proof.
  unfold wrapLongLines.
  destruct (strings_Fields (strings_TrimSpace text)) as [|first rest].
  - eauto.
  - apply wrap_loop_nonempty.
Qed.

Lemma wrap64_small (z : Z) :
  (- 2 ^ 63 <= z < 2 ^ 63)%Z -> wrap64 z = z.
Proof.
  intros H. unfold wrap64.
  rewrite Z.mod_small by lia. lia.
Qed.

(** The invariant of the loop: [spaceLeft] is the room left after
    [wrapped], and every line built so far fits or is a single word. *)
Lemma wrap_loop_fits (lineWidth : Z) (all : list string) :
  (0 <= lineWidth < 2 ^ 62)%Z ->
  forall (words ret : list string) (wrapped : string) (spaceLeft : Z),
    Forall (fun w => (len_string w < 2 ^ 62)%Z /\ In w all) words ->
    Forall (fun l => (len_string l <= lineWidth)%Z \/ In l all) ret ->
    (len_string wrapped <= lineWidth)%Z \/ In wrapped all ->
    (len_string wrapped < 2 ^ 62)%Z \/ (len_string wrapped <= lineWidth)%Z ->
    spaceLeft = (lineWidth - len_string wrapped)%Z ->
    Forall (fun l => (len_string l <= lineWidth)%Z \/ In l all)
           (wrap_loop lineWidth words ret wrapped spaceLeft).
Proof.
  intros Hw words.
  induction words as [|word rest IH];
    intros ret wrapped spaceLeft Hwords Hret Hwrapped Hsize Hleft;
    cbn [wrap_loop].
  - apply Forall_app. split; [exact Hret|]. constructor; [exact Hwrapped|constructor].
  - inversion Hwords as [|? ? [Hlen Hin] Hrest]; subst.
    assert (Hpos : (0 <= len_string word)%Z) by (unfold len_string; lia).
    assert (Hpos' : (0 <= len_string wrapped)%Z) by (unfold len_string; lia).
    rewrite (wrap64_small (len_string word + 1)) by lia.
    destruct (lineWidth - len_string wrapped <? len_string word + 1)%Z eqn:E.
    + apply IH; try assumption.
      * apply Forall_app. split; [exact Hret|].
        constructor; [exact Hwrapped|constructor].
      * right. exact Hin.
      * left. exact Hlen.
      * apply wrap64_small. lia.
    + apply Z.ltb_ge in E.
      assert (Hnew : len_string (wrapped ++ " " ++ word)
                     = (len_string wrapped + 1 + len_string word)%Z).
      { unfold len_string. rewrite !string_length_append. simpl. lia. }
      apply IH; try assumption.
      * left. lia.
      * right. lia.
      * rewrite (wrap64_small (1 + len_string word)) by lia.
        rewrite wrap64_small by lia. lia.
Qed.
End WrapFacts.

(** X1.  When the text has at least one word, the lines that
    [wrapLongLines] returns, joined by single spaces, are the words of the
    text joined by single spaces: no word is lost, repeated, reordered or
    cut, whatever the line width. *)
Theorem wrapLongLines_keeps_the_words :
  forall (strings_Fields : string -> list string)
         (strings_TrimSpace : string -> string)
         (text : string) (lineWidth : Z),
    strings_Fields (strings_TrimSpace text) <> [] ->
    unwords (wrapLongLines strings_Fields strings_TrimSpace text lineWidth)
    = unwords (strings_Fields (strings_TrimSpace text)).
Proof.
  intros F T text lineWidth Hwords. unfold wrapLongLines.
  destruct (F (T text)) as [|first rest]; [contradiction|].
  apply wrap_loop_unwords.
Qed.

Lemma wrapLongLines_keeps_the_words_witness :
  wrapLongLines sample_Fields sample_TrimSpace "a bb ccc dddddd e" 4
  = ["a bb"; "ccc"; "dddddd"; "e"]%string
  /\ unwords (wrapLongLines sample_Fields sample_TrimSpace
                            "a bb ccc dddddd e" 4)
     = unwords (sample_Fields (sample_TrimSpace "a bb ccc dddddd e")).
Proof.
  split; [reflexivity|].
  apply (wrapLongLines_keeps_the_words sample_Fields sample_TrimSpace).
  discriminate.
Defined.

(** X2.  For a line width between 0 and 2^62 and words shorter than 2^62
    bytes, every line [wrapLongLines] returns for a text with words is at
    most [lineWidth] bytes long, or is a single word of the text (one that
    is longer than the width and gets a line of its own). *)
Theorem wrapLongLines_lines_fit :
  forall (strings_Fields : string -> list string)
         (strings_TrimSpace : string -> string)
         (text : string) (lineWidth : Z),
    (0 <= lineWidth < 2 ^ 62)%Z ->
    strings_Fields (strings_TrimSpace text) <> [] ->
    Forall (fun w => (len_string w < 2 ^ 62)%Z)
           (strings_Fields (strings_TrimSpace text)) ->
    Forall (fun line =>
              (len_string line <= lineWidth)%Z
              \/ In line (strings_Fields (strings_TrimSpace text)))
           (wrapLongLines strings_Fields strings_TrimSpace text lineWidth).
Proof.
  intros F T text lineWidth Hw Hne Hshort. unfold wrapLongLines.
  destruct (F (T text)) as [|first rest] eqn:E; [contradiction|].
  inversion Hshort as [|? ? Hfirst Hrest]; subst.
  assert (Hpos : (0 <= len_string first)%Z) by (unfold len_string; lia).
  apply wrap_loop_fits; try assumption.
  - rewrite Forall_forall in *. intros w Hin. split.
    + apply Hrest. exact Hin.
    + right. exact Hin.
  - constructor.
  - right. left. reflexivity.
  - left. exact Hfirst.
  - apply wrap64_small. lia.
Qed.

Lemma wrapLongLines_lines_fit_witness :
  Forall (fun line =>
            (len_string line <= 4)%Z
            \/ In line (sample_Fields (sample_TrimSpace "a bb ccc dddddd e")))
         (wrapLongLines sample_Fields sample_TrimSpace
                        "a bb ccc dddddd e" 4).
Proof.
  apply (wrapLongLines_lines_fit sample_Fields sample_TrimSpace
           "a bb ccc dddddd e"%string 4%Z).
  - split; [discriminate|reflexivity].
  - discriminate.
  - repeat constructor.
Defined.

(** ** [printFlag] *)

Lemma print_lines_later (fname : string) (i : nat) (lines : list string) :
  flat_map printed_token (print_lines fname (S i) lines) = []
  /\ flat_map printed_text (print_lines fname (S i) lines) = lines.
Proof.
  revert i. induction lines as [|line rest IH]; intros i;
    [split; reflexivity|].
  destruct (IH (S i)) as [Htok Htext].
  cbn [print_lines print_line Nat.eqb]. rewrite !flat_map_app, Htok, Htext.
  split; reflexivity.
Qed.

(** X3.  For every flag, [printFlag] prints the token [-name=] exactly
    once, and in its second column exactly the lines [wrapLongLines] gives
    for the usage text at width 60, in order; a flag without usage text
    still gets its token. *)
Theorem printFlag_prints_token_and_usage :
  forall (strings_Fields : string -> list string)
         (strings_TrimSpace : string -> string) (f : FlagUsage),
    flat_map printed_token (printFlag strings_Fields strings_TrimSpace f)
    = [("-" ++ flag_Name f ++ "=")%string]
    /\ flat_map printed_text (printFlag strings_Fields strings_TrimSpace f)
       = wrapLongLines strings_Fields strings_TrimSpace (flag_Usage f) 60.
Proof.
  intros F T f. unfold printFlag. cbv zeta.
  destruct (wrapLongLines_nonempty F T (flag_Usage f) 60)
    as (line & lines & ->).
  destruct (print_lines_later ("-" ++ flag_Name f ++ "=") 0 lines)
    as [Htok Htext].
  cbn [flat_map printed_token printed_text app print_lines print_line Nat.eqb].
  rewrite !flat_map_app, Htok, Htext.
  destruct (Nat.ltb 20 (String.length ("-" ++ flag_Name f ++ "=")));
    split; reflexivity.
Qed.

(** ** More on [Generate] *)

Lemma prefix_append (a b : string) : String.prefix a (a ++ b) = true.
Proof.
  induction a as [|ch a IH]; simpl.
  - destruct b; reflexivity.
  - destruct (ascii_dec ch ch) as [_|Hne]; [exact IH|].
    exfalso. apply Hne. reflexivity.
Qed.

Lemma Contains_prefix (s sub : string) :
  String.prefix sub s = true -> Strings.Contains s sub = true.
Proof.
  intros H. destruct s; cbn [Strings.Contains]; rewrite H; reflexivity.
Qed.

Lemma scalar_line_names_flag (json_Marshal : string -> string) (f : Flag) :
  Strings.Contains (scalar_line json_Marshal f) (Name f) = true.
Proof. apply Contains_prefix. unfold scalar_line. apply prefix_append. Qed.

Lemma mem_name_In (names : list string) (name : string) :
  mem_name names name = true <-> In name names.
Proof.
  induction names as [|n names IH]; simpl.
  - split; [discriminate|intros []].
  - destruct (String.eqb n name) eqn:E.
    + apply String.eqb_eq in E. split; auto.
    + apply String.eqb_neq in E. rewrite IH. split; auto.
      intros [H|H]; [contradiction|exact H].
Qed.

(** One scalar flag over a working slice that fills its array and has a
    line with the flag's name: the line leaves, the new line takes the
    last cell. *)
Lemma visit_full_found (json_Marshal : string -> string)
      (c : TerraformFileConfig) (f : Flag) (B : list string) (i : nat) :
  find_line (Name f) B = Some i ->
  IsList c (Name f) = false ->
  visit json_Marshal c (mkGenState B (Shared (length B)) [] [] []) f
  = mkGenState (drop_at i B ++ [scalar_line json_Marshal f])
               (Shared (length B)) [] [] [].
Proof.
  intros Hfind Hlist.
  pose proof (find_line_bound _ _ _ Hfind) as Hi.
  assert (Hd : length (drop_at i B) = length B - 1)
    by (apply drop_at_length; assumption).
  rewrite visit_unfold. cbv zeta. rewrite Hlist.
  unfold after_removal, view. cbn [lines backing].
  rewrite firstn_all, Hfind.
  unfold remove_line. cbn [lines backing listValues mapValues errs].
  rewrite removal_shape by lia.
  rewrite firstn_all, skipn_all.
  unfold append_line. cbn [lines backing listValues mapValues errs].
  rewrite length_app, Hd. cbn [length].
  replace (Nat.ltb (length B - 1) (length B - 1 + 1)) with true
    by (symmetry; apply Nat.ltb_lt; lia).
  rewrite <- Hd at 1. rewrite store_last.
  f_equal. f_equal. lia.
Qed.

(** With one scalar flag supplied, the merge is the visit of that flag. *)
Lemma merge_single_scalar (json_Marshal : string -> string)
      (range_order : forall V : Type, gomap V -> gomap V)
      (c : TerraformFileConfig) (f : Flag) :
  fair_order range_order ->
  Flags c = [f] -> IsList c (Name f) = false ->
  merge json_Marshal range_order c
  = visit json_Marshal c (init_state c) f.
Proof.
  intros Hfair Hflags Hlist.
  assert (Hnil : forall V, range_order V [] = []).
  { intros V. apply Permutation_nil, Permutation_sym, Hfair. }
  unfold merge, visit_all. rewrite Hflags. cbn [fold_left].
  assert (Hl : listValues (visit json_Marshal c (init_state c) f) = []).
  { rewrite visit_unfold. cbv zeta. rewrite Hlist.
    destruct (append_line_maps (scalar_line json_Marshal f)
                (after_removal (Name f) (init_state c))) as (-> & _ & _).
    destruct (after_removal_maps (Name f) (init_state c)) as (-> & _ & _).
    reflexivity. }
  assert (Hm : mapValues (visit json_Marshal c (init_state c) f) = []).
  { destruct (visit_maps_errs json_Marshal c (init_state c) f) as [-> _].
    reflexivity. }
  rewrite Hl, Hnil. cbn [fold_left]. rewrite Hm, Hnil. reflexivity.
Qed.

(** X4.  Regeneration on the same receiver does not pile up values.
    With the slices of the receiver separate, a body without spare
    capacity and one scalar flag whose name occurs in a body line and in
    no other: the first call leaves in [c.BodyLines] the body without
    that line, followed by the flag's new line; a second call on the
    receiver replaces that very line, so it leaves [c.BodyLines] as the
    first call did and hands the formatter the same text. *)
Theorem second_call_replaces_the_flags_line :
  forall (json_Marshal : string -> string)
         (printer_Format : string -> string + string)
         (range_order : forall V : Type, gomap V -> gomap V)
         (c : TerraformFileConfig) (f : Flag) (i : nat),
    fair_order range_order ->
    wf_receiver c ->
    separate c ->
    span_len (body_span c) = span_cap (body_span c) ->
    Flags c = [f] ->
    IsList c (Name f) = false ->
    find_line (Name f) (elems (BodyLines c)) = Some i ->
    absent (Name f) (drop_at i (elems (BodyLines c))) ->
    let c1 := snd (Generate json_Marshal printer_Format range_order c) in
    let c2 := snd (Generate json_Marshal printer_Format range_order c1) in
    let kept :=
      drop_at i (elems (BodyLines c)) ++ [scalar_line json_Marshal f] in
    elems (BodyLines c1) = kept
    /\ view (merge json_Marshal range_order c1) = kept
    /\ BodyLines c2 = BodyLines c1
    /\ allLines json_Marshal range_order c1
       = PreLines c ++ kept ++ kept ++ PostLines c
    /\ allLines json_Marshal range_order c1
       = allLines json_Marshal range_order c.
Proof.
  intros jm pf ro c f i Hfair Hwf Hsep Hfull Hflags Hlist Hfind Habs
         c1 c2 kept.
  pose proof Hwf as (_ & (_ & Hbc) & _).
  set (B := arr (BodyLines c)).
  assert (HB : length B = span_cap (body_span c)).
  { unfold B, BodyLines. cbn [arr]. apply read_length. exact Hbc. }
  assert (Helems : elems (BodyLines c) = B).
  { unfold elems. fold B. cbn [BodyLines len]. rewrite Hfull, <- HB.
    apply firstn_all. }
  rewrite Helems in Hfind, Habs. unfold kept. rewrite Helems.
  pose proof (find_line_bound _ _ _ Hfind) as Hi.
  assert (Hk : length (drop_at i B ++ [scalar_line jm f]) = length B).
  { rewrite length_app, drop_at_length by exact Hi. cbn [length]. lia. }
  (* the first call *)
  assert (Hinit : init_state c = mkGenState B (Shared (length B)) [] [] []).
  { unfold init_state. fold B. cbn [BodyLines len].
    rewrite Hfull, <- HB. reflexivity. }
  assert (Hm : merge jm ro c
               = mkGenState (drop_at i B ++ [scalar_line jm f])
                            (Shared (length B)) [] [] []).
  { rewrite (merge_single_scalar jm ro c f Hfair Hflags Hlist), Hinit.
    apply visit_full_found; assumption. }
  assert (Hcap : length (backing (merge jm ro c)) = span_cap (body_span c)).
  { rewrite Hm. cbn [backing]. rewrite Hk. exact HB. }
  assert (Hst : wf (merge jm ro c)).
  { rewrite Hm. unfold wf. cbn [lines backing]. rewrite Hk. apply le_n. }
  destruct (compose_separate c Hwf (merge jm ro c) Hcap Hsep Hst)
    as (Hlines & Hb & Hp & Ho & Hlen).
  assert (Hbody1 : BodyLines c1
                   = mkSlice (drop_at i B ++ [scalar_line jm f])
                             (length B)).
  { unfold c1, Generate, receiver_after, BodyLines.
    cbn [snd cells body_span]. rewrite Hb, Hm. cbn [backing].
    rewrite Hfull, <- HB. reflexivity. }
  assert (He1 : elems (BodyLines c1) = drop_at i B ++ [scalar_line jm f]).
  { rewrite Hbody1. unfold elems. cbn [arr len]. rewrite <- Hk.
    apply firstn_all. }
  (* the receiver the second call finds *)
  assert (Hwf1 : wf_receiver c1).
  { unfold wf_receiver, wf_span, c1, Generate, receiver_after in *.
    cbn [snd cells pre_span body_span post_span] in *.
    rewrite Hlen. exact Hwf. }
  assert (Hsep1 : separate c1) by exact Hsep.
  assert (Hlist1 : IsList c1 (Name f) = false) by exact Hlist.
  assert (Hflags1 : Flags c1 = [f]) by exact Hflags.
  assert (Hinit1 : init_state c1
                   = mkGenState (drop_at i B ++ [scalar_line jm f])
                       (Shared (length (drop_at i B ++ [scalar_line jm f])))
                       [] [] []).
  { unfold init_state. rewrite Hbody1, Hk. reflexivity. }
  assert (Hfind1 : find_line (Name f) (drop_at i B ++ [scalar_line jm f])
                   = Some (length (drop_at i B))).
  { apply find_line_split; [exact Habs|apply scalar_line_names_flag]. }
  assert (Hm1 : merge jm ro c1
                = mkGenState (drop_at i B ++ [scalar_line jm f])
                             (Shared (length B)) [] [] []).
  { rewrite (merge_single_scalar jm ro c1 f Hfair Hflags1 Hlist1), Hinit1.
    rewrite (visit_full_found jm c1 f _ _ Hfind1 Hlist1).
    rewrite drop_at_split, app_nil_r, Hk. reflexivity. }
  assert (Hcap1 : length (backing (merge jm ro c1))
                  = span_cap (body_span c1)).
  { rewrite Hm1. cbn [backing]. rewrite Hk. exact HB. }
  assert (Hst1 : wf (merge jm ro c1)).
  { rewrite Hm1. unfold wf. cbn [lines backing]. rewrite Hk. apply le_n. }
  destruct (compose_separate c1 Hwf1 (merge jm ro c1) Hcap1 Hsep1 Hst1)
    as (Hlines1 & Hb1 & _).
  assert (Hview : forall st,
             st = mkGenState (drop_at i B ++ [scalar_line jm f])
                             (Shared (length B)) [] [] [] ->
             view st = drop_at i B ++ [scalar_line jm f]).
  { intros st ->. unfold view. cbn [lines backing]. rewrite <- Hk.
    apply firstn_all. }
  assert (Hfirst : forall st,
             st = mkGenState (drop_at i B ++ [scalar_line jm f])
                             (Shared (length B)) [] [] [] ->
             firstn (span_len (body_span c)) (backing st)
             = drop_at i B ++ [scalar_line jm f]).
  { intros st ->. cbn [backing]. rewrite Hfull, <- HB, <- Hk.
    apply firstn_all. }
  assert (Hall1 : allLines jm ro c1
                  = PreLines c ++ (drop_at i B ++ [scalar_line jm f])
                      ++ (drop_at i B ++ [scalar_line jm f])
                      ++ PostLines c).
  { unfold allLines. rewrite Hlines1.
    change (span_len (body_span c1)) with (span_len (body_span c)).
    rewrite (Hfirst _ Hm1), (Hview _ Hm1).
    replace (PreLines c1) with (PreLines c) by (symmetry; exact Hp).
    replace (PostLines c1) with (PostLines c) by (symmetry; exact Ho).
    reflexivity. }
  split; [exact He1|].
  split; [exact (Hview _ Hm1)|].
  split.
  { rewrite Hbody1. unfold c2, Generate, receiver_after, BodyLines.
    cbn [snd cells body_span]. rewrite Hb1, Hm1. cbn [backing].
    change (span_len (body_span c1)) with (span_len (body_span c)).
    rewrite Hfull, <- HB. reflexivity. }
  split; [exact Hall1|].
  rewrite Hall1. unfold allLines. rewrite Hlines.
  rewrite (Hfirst _ Hm), (Hview _ Hm). reflexivity.
Qed.

Lemma second_call_replaces_the_flags_line_witness :
  elems (BodyLines (snd (Generate sample_json sample_format sample_order
                                  replace_config)))
  = ["y = 3"; scalar_line sample_json (mkFlag "x" "2")]%string
  /\ BodyLines (snd (Generate sample_json sample_format sample_order
                       (snd (Generate sample_json sample_format
                                      sample_order replace_config))))
     = BodyLines (snd (Generate sample_json sample_format sample_order
                                replace_config)).
Proof.
  refine ((fun H => conj (proj1 H) (proj1 (proj2 (proj2 H))))
            (second_call_replaces_the_flags_line
               sample_json sample_format sample_order replace_config
               (mkFlag "x" "2") 0 _ _ _ eq_refl eq_refl eq_refl eq_refl _)).
  - intros V m. apply Permutation_refl.
  - repeat split; cbn; lia.
  - repeat split; unfold apart; cbn; lia.
  - repeat constructor.
Defined.

(** X5.  With one list flag supplied, the merged lines are the body
    without its first line containing the flag's name, followed by a
    blank line, the opening line [name = [], the JSON value indented by
    two spaces with a trailing comma, and the closing bracket. *)
Theorem list_flag_renders_a_block :
  forall (json_Marshal : string -> string)
         (range_order : forall V : Type, gomap V -> gomap V)
         (c : TerraformFileConfig) (f : Flag),
    fair_order range_order ->
    wf_slice (BodyLines c) ->
    Flags c = [f] ->
    IsList c (Name f) = true ->
    view (merge json_Marshal range_order c)
    = remove_first (Name f) (elems (BodyLines c))
        ++ [EmptyString;
            (Name f ++ " = [")%string;
            ("  " ++ json_Marshal (Value f) ++ ",")%string;
            "]"%string].
Proof.
  intros jm ro c f Hfair Hwf Hflags Hlist.
  destruct (merge_view jm ro c Hfair Hwf) as [Hv _]. rewrite Hv.
  unfold merged_lines. rewrite Hflags. cbn [fold_left].
  unfold visit_lines. rewrite Hlist. cbn [fst snd map_get map_set app].
  assert (Hone : ro _ [(Name f, [Value f])] = [(Name f, [Value f])]).
  { apply Permutation_length_1_inv, Permutation_sym, Hfair. }
  rewrite Hone. reflexivity.
Qed.

Lemma list_flag_renders_a_block_witness :
  view (merge sample_json sample_order
              (mkConfig [mkFlag "tags" "a"] ["tags"%string] [] []
                        (literal ["tags = []"; "y = 3"]%string) []
                        EmptyString))
  = ["y = 3"; ""; "tags = ["; "  " ++ sample_json "a" ++ ","; "]"]%string.
Proof.
  apply (list_flag_renders_a_block sample_json sample_order
           (mkConfig [mkFlag "tags" "a"] ["tags"%string] [] []
                     (literal ["tags = []"; "y = 3"]%string) []
                     EmptyString)
           (mkFlag "tags" "a")).
  - intros V m. apply Permutation_refl.
  - apply le_n.
  - reflexivity.
  - reflexivity.
Defined.





(** X8.  [IsList] answers [true] exactly for the names listed in
    [ListFlags], compared byte for byte. *)
Theorem IsList_is_membership :
  forall (c : TerraformFileConfig) (name : string),
    (IsList c name = true <-> In name (ListFlags c))
    /\ (IsList c name = false <-> ~ In name (ListFlags c)).
Proof.
  intros c name. unfold IsList.
  pose proof (mem_name_In (ListFlags c) name) as H.
  split; [exact H|].
  destruct (mem_name (ListFlags c) name); split; intros H'.
  - discriminate H'.
  - exfalso. apply H'. apply H. reflexivity.
  - intros Hin. apply H in Hin. discriminate Hin.
  - reflexivity.
Qed.

(** ** More on the router *)

Section RouterExtras.
Context {World Version : Type}.
Variable env : Collaborators World Version.
Variable plugins : list (Plugin World).

Lemma loadPlugins_from_queries (ps loaded : list (Plugin World)) (w : World) :
  (forall p, In p ps -> plugin_IsUsed p w
                        = (fst (fst (plugin_IsUsed p w)), None, w)) ->
  loadPlugins_from ps loaded w
  = (usage_events (fun p => fst (fst (plugin_IsUsed p w))) ps, w,
     inl (loaded ++ filter (fun p => fst (fst (plugin_IsUsed p w))) ps)).
Proof.
  revert loaded. induction ps as [|p ps IH]; intros loaded Hq.
  - simpl. rewrite app_nil_r. reflexivity.
  - assert (Hp := Hq p (or_introl eq_refl)).
    assert (Hps : forall q, In q ps ->
                    plugin_IsUsed q w
                    = (fst (fst (plugin_IsUsed q w)), None, w))
      by (intros q Hin; apply Hq; right; exact Hin).
    cbn [loadPlugins_from]. rewrite emit_then.
    destruct (plugin_IsUsed p w) as [[used err] w'] eqn:E.
    cbn [fst snd] in Hp. inversion Hp; subst err w'. clear Hp.
    rewrite check_then.
    cbn [usage_events flat_map filter]. rewrite E. cbn [fst snd].
    destruct used.
    + rewrite emit_then, (IH _ Hps), with_prefix_app.
      unfold with_prefix, trace, world, outcome. cbn [fst snd].
      rewrite <- (app_assoc loaded [p]). reflexivity.
    + rewrite (IH _ Hps).
      unfold with_prefix, trace, world, outcome. reflexivity.
Qed.

Lemma pre_run_all_succeed (ps : list (Plugin World)) (isInit : bool)
      (w : World) :
  (forall p w', In p ps -> fst (plugin_BeforeRun p isInit w') = None) ->
  exists w1,
    pre_run ps isInit w
    = (map (fun q => BeforeRun (GetName q) isInit) ps, w1, inl tt).
Proof.
  revert w. induction ps as [|p ps IH]; intros w Hok.
  - exists w. reflexivity.
  - cbn [pre_run]. rewrite emit_then, call_then.
    rewrite (Hok p w (or_introl eq_refl)).
    destruct (IH (snd (plugin_BeforeRun p isInit w))) as [w1 H1].
    { intros q w' Hin. apply Hok. right. exact Hin. }
    exists w1. rewrite H1. reflexivity.
Qed.

Lemma post_run_all_succeed (ps : list (Plugin World)) (err : option error)
      (w : World) :
  (forall p w', In p ps -> fst (plugin_AfterRun p err w') = None) ->
  exists w1,
    post_run ps err w
    = (map (fun q => AfterRun (GetName q) err) ps, w1, inl tt).
Proof.
  revert w. induction ps as [|p ps IH]; intros w Hok.
  - exists w. reflexivity.
  - cbn [post_run]. rewrite emit_then, call_then.
    rewrite (Hok p w (or_introl eq_refl)).
    destruct (IH (snd (plugin_AfterRun p err w))) as [w1 H1].
    { intros q w' Hin. apply Hok. right. exact Hin. }
    exists w1. rewrite H1. reflexivity.
Qed.

Lemma pre_run_isInit (ps : list (Plugin World)) (isInit : bool) :
  events_in (carries_isInit isInit) (pre_run ps isInit).
Proof.
  induction ps as [|p ps IH]; simpl.
  - apply events_ret.
  - apply events_bind; [apply events_emit; reflexivity|intros _].
    apply events_bind; [apply events_call|intros err].
    destruct err; [apply events_halt|exact IH].
Qed.

Lemma post_run_isInit (ps : list (Plugin World)) (isInit : bool)
      (err : option error) :
  events_in (carries_isInit isInit) (post_run ps err).
Proof.
  induction ps as [|p ps IH]; simpl.
  - apply events_ret.
  - apply events_bind; [apply events_emit; exact I|intros _].
    apply events_bind; [apply events_call|intros perr].
    destruct perr; [destruct err; apply events_halt|exact IH].
Qed.

Lemma main_reserved (arg0 : string) (args : list string) (w : World) :
  reserved (hd EmptyString args) = true ->
  main env plugins (arg0 :: args) w
  = (early_upgrade_checks env (arg0 :: args) ;; ret tt) w.
Proof.
  intros Hres.
  pose proof (early_reserved env arg0 args w Hres) as Hne.
  unfold main, bind.
  destruct (early_upgrade_checks env (arg0 :: args) w)
    as [[t w'] [[|]|h]]; try reflexivity.
  exfalso. apply Hne. reflexivity.
Qed.

Lemma find_in_commands_first (cmds : list (Command World)) (name : string) :
  match find_in_commands cmds name with
  | Some cmd =>
      cmd_GetName cmd = name
      /\ exists before after,
           cmds = before ++ cmd :: after
           /\ Forall (fun c => cmd_GetName c <> name) before
  | None => Forall (fun c => cmd_GetName c <> name) cmds
  end.
Proof.
  induction cmds as [|cmd cmds IH]; simpl; [constructor|].
  destruct (String.eqb (cmd_GetName cmd) name) eqn:E.
  - apply String.eqb_eq in E. split; [exact E|].
    exists [], cmds. split; [reflexivity|constructor].
  - apply String.eqb_neq in E.
    destruct (find_in_commands cmds name) as [found|].
    + destruct IH as (Hname & before & after & -> & Hbefore).
      split; [exact Hname|].
      exists (cmd :: before), after. split; [reflexivity|].
      constructor; assumption.
    + constructor; assumption.
Qed.
End RouterExtras.

(** X9.  When every usage check, run in the world at hand, reports no
    error and leaves that world as it is, [loadPlugins] returns exactly
    the registered plugins that report being used, in registration order;
    it checks every plugin once and prints a notice for each one in
    use. *)
Theorem loadPlugins_returns_the_used_plugins :
  forall (World : Type) (plugins : list (Plugin World)) (w : World),
    (forall p, In p plugins ->
               plugin_IsUsed p w = (fst (fst (plugin_IsUsed p w)), None, w)) ->
    loadPlugins plugins w
    = (usage_events (fun p => fst (fst (plugin_IsUsed p w))) plugins, w,
       inl (filter (fun p => fst (fst (plugin_IsUsed p w))) plugins)).
Proof.
  intros World plugins w Hq. unfold loadPlugins.
  exact (loadPlugins_from_queries plugins [] w Hq).
Qed.

Lemma loadPlugins_returns_the_used_plugins_witness :
  loadPlugins [service_plugin; agent_plugin] true
  = ([IsUsed "service"; PrintInfo "Using plugin %s" ["service"%string];
      IsUsed "ssh-agent"; PrintInfo "Using plugin %s" ["ssh-agent"%string]],
     true, inl [service_plugin; agent_plugin]).
Proof.
  apply (loadPlugins_returns_the_used_plugins
           SampleWorld [service_plugin; agent_plugin] true).
  intros p [<-|[<-|[]]]; reflexivity.
Defined.

(** X10.  When every pre-hook and every post-hook of the given plugins
    succeeds, a lifecycle run calls the pre-hooks in order, delegates the
    vector once in the world the pre-hooks leave, calls the post-hooks in
    order, each with the result of that delegated run, in the world it
    leaves, and returns normally, also when the delegated run itself
    failed. *)
Theorem lifecycle_survives_a_failed_delegation :
  forall (World Version : Type) (env : Collaborators World Version)
         (ps : list (Plugin World)) (args : list string) (w : World),
    (forall p w' b, In p ps -> fst (plugin_BeforeRun p b w') = None) ->
    (forall p w' e, In p ps -> fst (plugin_AfterRun p e w') = None) ->
    let isInit := existsb (fun arg => String.eqb arg "init") args in
    let r := invokeTerraform env ps args w in
    let delegated := tf_Invoke env args (world (pre_run ps isInit w)) in
    outcome r = inl tt
    /\ trace r
       = map (fun q => BeforeRun (GetName q) isInit) ps
           ++ Invoke args
           :: map (fun q => AfterRun (GetName q) (fst delegated)) ps
    /\ world r = world (post_run ps (fst delegated) (snd delegated)).
Proof.
  intros World Version env ps args w Hpre Hpost isInit r delegated.
  destruct (pre_run_all_succeed ps isInit w) as [w1 H1].
  { intros p w' Hin. apply Hpre. exact Hin. }
  assert (Hd : delegated = tf_Invoke env args w1).
  { unfold delegated. rewrite H1. reflexivity. }
  destruct (post_run_all_succeed ps (fst delegated) (snd delegated))
    as [w2 H2].
  { intros p w' Hin. apply Hpost. exact Hin. }
  assert (Hr : r = (map (fun q => BeforeRun (GetName q) isInit) ps
                      ++ Invoke args
                      :: map (fun q => AfterRun (GetName q)
                                         (fst delegated)) ps,
                    w2, inl tt)).
  { unfold r, invokeTerraform. fold isInit.
    rewrite (bind_value _ _ w w1 _ tt H1).
    rewrite emit_then, call_then, <- Hd, H2. reflexivity. }
  rewrite Hr, H2. repeat split.
Qed.

Lemma lifecycle_survives_a_failed_delegation_witness :
  outcome (invokeTerraform failing_tool_env [service_plugin]
                           ["plan"%string] true) = inl tt
  /\ trace (invokeTerraform failing_tool_env [service_plugin]
                            ["plan"%string] true)
     = [BeforeRun "service" false; Invoke ["plan"%string];
        AfterRun "service" (Some "exit status 1"%string)].
Proof.
  refine ((fun H => conj (proj1 H) (proj1 (proj2 H)))
            (lifecycle_survives_a_failed_delegation
               SampleWorld nat failing_tool_env [service_plugin]
               ["plan"%string] true _ _)).
  - intros p w' b [<-|[]]. reflexivity.
  - intros p w' e [<-|[]]. reflexivity.
Defined.

(** X11.  In a lifecycle run every pre-hook is told that the run is an
    initialisation exactly when some argument of the delegated vector is
    the word [init], wherever it stands in the vector. *)
Theorem pre_hooks_are_told_about_init :
  forall (World Version : Type) (env : Collaborators World Version)
         (ps : list (Plugin World)) (args : list string) (w : World)
         (name : string) (isInit : bool),
    In (BeforeRun name isInit) (trace (invokeTerraform env ps args w)) ->
    (isInit = true <-> In "init"%string args).
Proof.
  intros World Version env ps args w name isInit Hin.
  set (flag := existsb (fun arg => String.eqb arg "init") args).
  assert (He : events_in (carries_isInit flag) (invokeTerraform env ps args)).
  { unfold invokeTerraform. fold flag.
    apply events_bind; [apply pre_run_isInit|intros _].
    apply events_bind; [apply events_emit; exact I|intros _].
    apply events_bind; [apply events_call|intros err].
    apply post_run_isInit. }
  specialize (He w). rewrite Forall_forall in He.
  specialize (He _ Hin). simpl in He. subst isInit. unfold flag.
  rewrite existsb_exists. split.
  - intros (a & Ha & Heq). apply String.eqb_eq in Heq. subst a. exact Ha.
  - intros Ha. exists "init"%string. split; [exact Ha|reflexivity].
Qed.

Lemma pre_hooks_are_told_about_init_witness :
  In (BeforeRun "service" true)
     (trace (invokeTerraform sample_env [service_plugin]
                             ["-input=false"; "init"]%string true))
  /\ (true = true <-> In "init"%string ["-input=false"; "init"]%string).
Proof.
  split; [left; reflexivity|].
  apply (pre_hooks_are_told_about_init
           SampleWorld nat sample_env [service_plugin]
           ["-input=false"; "init"]%string true "service"%string true).
  left. reflexivity.
Defined.

(** X12.  When the first argument is one of the three reserved commands,
    [main] only prints notices and calls the upgrade helpers: it shows no
    help, calls no plugin and delegates nothing, whatever the other
    arguments are and whatever state the sandbox is in. *)
Theorem reserved_commands_bypass_the_router :
  forall (World Version : Type) (env : Collaborators World Version)
         (plugins : list (Plugin World)) (arg0 : string)
         (args : list string) (w : World),
    reserved (hd EmptyString args) = true ->
    Forall upgrade_event (trace (main env plugins (arg0 :: args) w)).
Proof.
  intros World Version env plugins arg0 args w Hres.
  rewrite (main_reserved env plugins arg0 args w Hres).
  assert (He : events_in upgrade_event
                 (early_upgrade_checks env (arg0 :: args) ;; ret tt)).
  { apply events_bind; [apply early_events|intros; apply events_ret]. }
  apply He.
Qed.

Lemma reserved_commands_bypass_the_router_witness :
  main sample_env sample_plugins ["tf"; "wheels-version"; "--help"]%string
       false
  = ([PrintInfo "You are using terraform-wheels version %s" ["1.0.0"%string]],
     false, inl tt)
  /\ Forall upgrade_event
            (trace (main sample_env sample_plugins
                         ["tf"; "wheels-version"; "--help"]%string false)).
Proof.
  split; [reflexivity|].
  apply (reserved_commands_bypass_the_router
           SampleWorld nat sample_env sample_plugins "tf"%string
           ["wheels-version"; "--help"]%string false).
  reflexivity.
Defined.

(** X13.  Whatever its arguments and the state of the sandbox, [main]
    hands the external tool only the empty vector (for the tool's help),
    the vector [init] (after a first scaffold) or its own arguments
    unchanged: it never rewrites the vector it delegates. *)
Theorem main_delegates_the_vector_unchanged :
  forall (World Version : Type) (env : Collaborators World Version)
         (plugins : list (Plugin World)) (os_Args : list string) (w : World)
         (delegated : list string),
    In (Invoke delegated) (trace (main env plugins os_Args w)) ->
    delegated = [] \/ delegated = ["init"%string] \/ delegated = tl os_Args.
Proof.
  intros World Version env plugins os_Args w delegated Hin.
  pose proof (main_events env plugins os_Args w) as H.
  rewrite Forall_forall in H. exact (H _ Hin).
Qed.

Lemma main_delegates_the_vector_unchanged_witness :
  In (Invoke ["-chdir=x"; "plan"]%string)
     (trace (main sample_env sample_plugins
                  ["tf"; "-chdir=x"; "plan"]%string true))
  /\ (["-chdir=x"; "plan"]%string = []
      \/ ["-chdir=x"; "plan"]%string = ["init"%string]
      \/ ["-chdir=x"; "plan"]%string
         = tl ["tf"; "-chdir=x"; "plan"]%string).
Proof.
  assert (Hin : In (Invoke ["-chdir=x"; "plan"]%string)
                   (trace (main sample_env sample_plugins
                                ["tf"; "-chdir=x"; "plan"]%string true))).
  { vm_compute. auto 10. }
  split; [exact Hin|].
  exact (main_delegates_the_vector_unchanged
           SampleWorld nat sample_env sample_plugins
           ["tf"; "-chdir=x"; "plan"]%string true
           ["-chdir=x"; "plan"]%string Hin).
Defined.

(** X14.  The lookup of a plugin command returns the first command of
    that exact name in registration order (plugins in their order, the
    commands of each in theirs): every command before it has another
    name.  It finds nothing only when no registered command has the
    name. *)
Theorem plugin_command_lookup_takes_the_first_match :
  forall (World : Type) (plugins : list (Plugin World)) (name : string),
    match find_plugin_command plugins name with
    | Some cmd =>
        cmd_GetName cmd = name
        /\ exists before after,
             flat_map GetCommands plugins = before ++ cmd :: after
             /\ Forall (fun c => cmd_GetName c <> name) before
    | None =>
        Forall (fun c => cmd_GetName c <> name)
               (flat_map GetCommands plugins)
    end.
Proof.
  intros World plugins name.
  induction plugins as [|p plugins IH]; simpl; [constructor|].
  pose proof (find_in_commands_first (GetCommands p) name) as Hp.
  destruct (find_in_commands (GetCommands p) name) as [cmd|].
  - destruct Hp as (Hname & before & after & Hsplit & Hbefore).
    split; [exact Hname|].
    exists before, (after ++ flat_map GetCommands plugins).
    rewrite Hsplit, <- app_assoc. split; [reflexivity|exact Hbefore].
  - destruct (find_plugin_command plugins name) as [cmd|].
    + destruct IH as (Hname & before & after & Hsplit & Hbefore).
      split; [exact Hname|].
      exists (GetCommands p ++ before), after.
      rewrite Hsplit, <- app_assoc. split; [reflexivity|].
      apply Forall_app. split; assumption.
    + apply Forall_app. split; assumption.
Qed.

(** X15.  After a passthrough that returns normally, [main] prints its
    closing hint (a blank line and two lines naming the program) exactly
    when the sandbox reported no provisioning files at the start;
    otherwise the run consists of the lifecycle events alone. *)
Theorem passthrough_hint_only_without_files :
  forall (World Version : Type) (env : Collaborators World Version)
         (plugins : list (Plugin World)) (os_Args : list string)
         (hasTfFiles : bool) (w : World),
    let r := forward_to_terraform env plugins os_Args hasTfFiles w in
    outcome r = inl tt ->
    exists t,
      Forall (lifecycle_event (tl os_Args)) t
      /\ trace r
         = t ++ (if hasTfFiles then []
                 else closing_hint (nth 0 os_Args EmptyString)).
Proof.
  intros World Version env plugins os_Args hasTfFiles w r.
  unfold r, forward_to_terraform.
  rewrite call_then, check_then.
  destruct (fst (GetTerraform env w)); [discriminate|].
  set (w1 := snd (GetTerraform env w)).
  pose proof (loadPlugins_from_events (tl os_Args) plugins [] w1) as Hl.
  unfold loadPlugins.
  destruct (loadPlugins_from plugins [] w1) as [[t1 w2] [loaded|h]] eqn:E1.
  2:{ rewrite (bind_halt _ _ w1 w2 t1 h E1). discriminate. }
  rewrite (bind_value _ _ w1 w2 t1 loaded E1).
  pose proof (invokeTerraform_events env loaded (tl os_Args) w2) as Hi.
  destruct (invokeTerraform env loaded (tl os_Args) w2)
    as [[t2 w3] [[]|h]] eqn:E2.
  2:{ rewrite (bind_halt _ _ w2 w3 t2 h E2). discriminate. }
  rewrite (bind_value _ _ w2 w3 t2 tt E2).
  intros _. exists (t1 ++ t2). split.
  { apply Forall_app. split; [exact Hl|exact Hi]. }
  rewrite with_prefix_app, trace_with_prefix. f_equal.
  destruct hasTfFiles; reflexivity.
Qed.

Lemma passthrough_hint_only_without_files_witness :
  exists t,
    Forall (lifecycle_event (tl ["tf"; "plan"]%string)) t
    /\ trace (forward_to_terraform sample_env sample_plugins
                                   ["tf"; "plan"]%string false false)
       = t ++ closing_hint "tf".
Proof.
  exact (passthrough_hint_only_without_files
           SampleWorld nat sample_env sample_plugins
           ["tf"; "plan"]%string false false eq_refl).
Defined.

(** ** What [Generate] writes *)

(** X16.  Whatever flags are supplied and in whatever order maps are
    ranged over, [Generate] writes no cell outside the array of
    [c.BodyLines] and the spare cells of the array of [c.PreLines]: every
    run of cells apart from both holds after the call what it held
    before, and no cell is added or lost. *)
Theorem generate_writes_body_and_spare_header_cells_only :
  forall (json_Marshal : string -> string)
         (printer_Format : string -> string + string)
         (range_order : forall V : Type, gomap V -> gomap V)
         (c : TerraformFileConfig) (q m : nat),
    wf_receiver c ->
    apart (span_ptr (body_span c)) (span_cap (body_span c)) q m ->
    apart (span_ptr (pre_span c) + span_len (pre_span c))
          (span_cap (pre_span c) - span_len (pre_span c)) q m ->
    let c' := snd (Generate json_Marshal printer_Format range_order c) in
    read (cells c') q m = read (cells c) q m
    /\ length (cells c') = length (cells c).
Proof.
  intros jm pf ro c q m Hwf Hbody Hspare c'.
  assert (Hws : wf_slice (BodyLines c)).
  { destruct Hwf as (_ & (Hbl & Hbc) & _).
    unfold wf_slice, BodyLines. cbn [len arr].
    rewrite read_length by assumption. exact Hbl. }
  assert (Hcap : length (backing (merge jm ro c)) = span_cap (body_span c)).
  { rewrite merge_capacity by exact Hws.
    unfold BodyLines. cbn [arr]. apply read_length.
    destruct Hwf as (_ & (_ & Hbc) & _). exact Hbc. }
  unfold c', Generate, receiver_after. cbn [snd cells].
  rewrite compose_steps. cbn [snd]. split.
  - destruct (appends_apart c Hwf (merge jm ro c) Hcap q m Hspare)
      as (_ & _ & ->).
    apply memory_after_merge_apart; assumption.
  - apply after_post_length; assumption.
Qed.

Lemma generate_writes_body_and_spare_header_cells_only_witness :
  read (cells (snd (Generate sample_json sample_format sample_order
                             replace_config))) 0 1
  = ["module {"%string]
  /\ read (cells (snd (Generate sample_json sample_format sample_order
                                replace_config))) 3 1
     = ["}"%string].
Proof.
  split.
  - refine (proj1 (generate_writes_body_and_spare_header_cells_only
                     sample_json sample_format sample_order replace_config
                     0 1 _ _ _)).
    + repeat split; cbn; lia.
    + unfold apart; cbn; lia.
    + unfold apart; cbn; lia.
  - refine (proj1 (generate_writes_body_and_spare_header_cells_only
                     sample_json sample_format sample_order replace_config
                     3 1 _ _ _)).
    + repeat split; cbn; lia.
    + unfold apart; cbn; lia.
    + unfold apart; cbn; lia.
Defined.

(** ** A header and a footer cut from one slice *)

Lemma firstn_plus (l : list string) (a b : nat) :
  firstn (a + b) l = firstn a l ++ firstn b (skipn a l).
Proof.
  revert l. induction a as [|a IH]; intros l; [reflexivity|].
  destruct l as [|x l]; cbn [Nat.add firstn skipn app].
  - rewrite firstn_nil. reflexivity.
  - rewrite IH. reflexivity.
Qed.

Lemma read_app (mem : Memory) (p a b : nat) :
  read mem p (a + b) = read mem p a ++ read mem (p + a) b.
Proof.
  unfold read. rewrite firstn_plus, skipn_skipn.
  replace (a + p) with (p + a) by lia. reflexivity.
Qed.

Lemma read_skipn (mem : Memory) (p k n : nat) :
  k <= n -> read mem (p + k) (n - k) = skipn k (read mem p n).
Proof.
  intros Hk. unfold read.
  rewrite skipn_firstn_comm, skipn_skipn.
  replace (k + p) with (p + k) by lia. reflexivity.
Qed.

Section SharedTemplate.
Variable c : TerraformFileConfig.
Variable st : GenState.
Hypothesis Hwf : wf_receiver c.
Hypothesis Hst : wf st.
Hypothesis Hcap : length (backing st) = span_cap (body_span c).
(** [c.PostLines] starts where the elements of [c.PreLines] end, and the
    capacity of [c.PreLines] ends where [c.PostLines] ends. *)
Hypothesis Hcut_ptr :
  span_ptr (post_span c) = span_ptr (pre_span c) + span_len (pre_span c).
Hypothesis Hcut_cap :
  span_cap (pre_span c) = span_len (pre_span c) + span_len (post_span c).
Hypothesis Hbody :
  apart (span_ptr (body_span c)) (span_cap (body_span c))
        (span_ptr (pre_span c)) (span_cap (pre_span c)).
Hypothesis Hfits : span_len (body_span c) <= span_len (post_span c).

Lemma shared_template_lines :
  let B := firstn (span_len (body_span c)) (backing st) in
  let W :=
    if Nat.leb (span_len (body_span c) + length (view st))
               (span_len (post_span c))
    then B ++ view st else B in
  fst (compose c st)
  = PreLines c ++ B ++ view st ++ (W ++ skipn (length W) (PostLines c))
  /\ read (snd (compose c st)) (span_ptr (post_span c))
          (span_len (post_span c))
     = W ++ skipn (length W) (PostLines c).
Proof.
  cbv zeta.
  pose proof Hwf as ((Hpl & Hpc) & (Hbl & Hbc) & (Hol & Hoc)).
  set (pp := span_ptr (pre_span c)) in *.
  set (pl := span_len (pre_span c)) in *.
  set (pc := span_cap (pre_span c)) in *.
  set (bp := span_ptr (body_span c)) in *.
  set (bl := span_len (body_span c)) in *.
  set (bc := span_cap (body_span c)) in *.
  set (op := span_ptr (post_span c)) in *.
  set (ol := span_len (post_span c)) in *.
  set (mem1 := memory_after_merge c st).
  set (B := firstn bl (backing st)).
  assert (HlenB : length B = bl).
  { unfold B. rewrite length_firstn. lia. }
  assert (Hm1 : length mem1 = length (cells c))
    by (apply memory_after_merge_length; assumption).
  assert (Hb1 : forall n, n <= bc -> read mem1 bp n = firstn n (backing st)).
  { intros n Hn.
    rewrite <- (memory_after_merge_body c Hwf st Hcap).
    fold bp bc mem1. unfold read.
    rewrite firstn_firstn, Nat.min_l by lia. reflexivity. }
  assert (Hp1 : forall q n, pp <= q -> q + n <= pp + pc ->
                            read mem1 q n = read (cells c) q n).
  { intros q n Hq Hn. apply memory_after_merge_apart; [assumption..|].
    fold bp bc. apply apart_sym.
    eapply apart_within; [apply apart_sym; exact Hbody| |]; fold pp pc; lia. }
  (* the first append is in place: it writes the first cells of the footer *)
  set (mem2 := write mem1 (pp + pl) B).
  assert (H1 : after_body c st = (mem2, InPre (pl + bl))).
  { unfold after_body, append_all. cbn [fst snd]. fold mem1 bp bl pl pp pc.
    rewrite (Hb1 bl Hbl). fold B. rewrite HlenB.
    replace (Nat.leb (pl + bl) pc) with true
      by (symmetry; apply Nat.leb_le; lia).
    reflexivity. }
  assert (Hm2 : length mem2 = length (cells c)).
  { unfold mem2. rewrite write_length; lia. }
  assert (Hb2 : forall n, n <= bc -> read mem2 bp n = firstn n (backing st)).
  { intros n Hn. unfold mem2. rewrite read_write_apart; [apply Hb1; exact Hn|lia|].
    rewrite HlenB.
    eapply apart_within with (a' := bp) (n' := n) in Hbody; [|lia|lia].
    apply apart_sym. apply apart_sym in Hbody.
    eapply apart_within; [exact Hbody| |]; fold pp pc; lia. }
  assert (HL : lines_in c mem2 st = view st).
  { unfold lines_in, view. unfold wf in Hst.
    destruct (lines st) as [n|l]; [|reflexivity].
    fold bp. apply Hb2. lia. }
  assert (Hpre2 : read mem2 pp pl = PreLines c).
  { unfold mem2. rewrite read_write_apart; [|lia|unfold apart; lia].
    apply Hp1; lia. }
  assert (HB2 : read mem2 (pp + pl) bl = B).
  { unfold mem2. rewrite read_write_prefix by lia.
    rewrite <- HlenB. apply firstn_all. }
  assert (Hrest : forall k, k <= ol ->
             read mem1 (pp + pl + k) (ol - k) = skipn k (PostLines c)).
  { intros k Hk. rewrite Hp1 by lia.
    unfold PostLines. fold op ol. rewrite Hcut_ptr.
    apply read_skipn. exact Hk. }
  set (L := view st) in *.
  destruct (Nat.leb (bl + length L) ol) eqn:E.
  - (* the second append is in place as well *)
    apply Nat.leb_le in E.
    set (mem3 := write mem2 (pp + pl + bl) L).
    assert (H2 : after_lines c st = (mem3, InPre (pl + bl + length L))).
    { unfold after_lines. rewrite H1. cbn [fst]. rewrite HL.
      unfold append_all. cbn [fst snd]. fold pp pc.
      replace (Nat.leb (pl + bl + length L) pc) with true
        by (symmetry; apply Nat.leb_le; lia).
      unfold mem3. rewrite Nat.add_assoc. reflexivity. }
    assert (Hm3 : length mem3 = length (cells c)).
    { unfold mem3. rewrite write_length; lia. }
    assert (Hpost3 : read mem3 op ol
                     = (B ++ L) ++ skipn (length (B ++ L)) (PostLines c)).
    { rewrite Hcut_ptr. fold pp pl.
      rewrite length_app, HlenB.
      replace ol with ((bl + length L) + (ol - (bl + length L))) at 1 by lia.
      rewrite read_app. f_equal.
      - unfold mem3. rewrite read_write_extend by lia.
        rewrite HB2. reflexivity.
      - unfold mem3, mem2.
        rewrite read_write_apart; [|rewrite write_length; lia|unfold apart; lia].
        rewrite read_write_apart; [|lia|rewrite HlenB; unfold apart; lia].
        apply Hrest. lia. }
    assert (Hmem4 : fst (after_post c st) = mem3).
    { unfold after_post. rewrite H2. cbn [fst].
      unfold append_all. cbn [fst snd]. fold pp pc op ol.
      rewrite (read_length mem3 op ol) by lia.
      destruct (Nat.leb (pl + bl + length L + ol) pc) eqn:E4;
        cbn [fst]; [|reflexivity].
      apply Nat.leb_le in E4.
      assert (Hz : bl + length L = 0) by lia.
      replace (pp + (pl + bl + length L)) with op by lia.
      apply write_read. lia. }
    split.
    + rewrite (compose_lines c Hwf st Hcap).
      fold mem1 pp pl bp bl op ol.
      rewrite H1, H2. cbn [fst]. rewrite HL, Hpost3.
      rewrite (Hp1 pp pl) by lia. rewrite (Hb1 bl Hbl). reflexivity.
    + rewrite compose_steps. cbn [snd]. rewrite Hmem4. exact Hpost3.
  - (* the second append moves [allLines] to an array of its own *)
    apply Nat.leb_gt in E.
    assert (H2 : fst (after_lines c st) = mem2).
    { unfold after_lines. rewrite H1. cbn [fst]. rewrite HL.
      unfold append_all. cbn [fst snd]. fold pp pc.
      replace (Nat.leb (pl + bl + length L) pc) with false
        by (symmetry; apply Nat.leb_gt; lia).
      reflexivity. }
    assert (H2' : exists l, snd (after_lines c st) = Fresh l).
    { unfold after_lines. rewrite H1. cbn [fst]. rewrite HL.
      unfold append_all. cbn [fst snd]. fold pp pc.
      replace (Nat.leb (pl + bl + length L) pc) with false
        by (symmetry; apply Nat.leb_gt; lia).
      eexists. reflexivity. }
    assert (Hpost3 : read mem2 op ol = B ++ skipn (length B) (PostLines c)).
    { rewrite Hcut_ptr. fold pp pl. rewrite HlenB.
      replace ol with (bl + (ol - bl)) at 1 by lia.
      rewrite read_app. f_equal; [exact HB2|].
      unfold mem2.
      rewrite read_write_apart; [|lia|rewrite HlenB; unfold apart; lia].
      apply Hrest. lia. }
    assert (Hmem4 : fst (after_post c st) = mem2).
    { unfold after_post. destruct H2' as [l Hl].
      unfold append_all. rewrite Hl, H2. reflexivity. }
    split.
    + rewrite (compose_lines c Hwf st Hcap).
      fold mem1 pp pl bp bl op ol.
      rewrite H1, H2. cbn [fst]. rewrite HL, Hpost3.
      rewrite (Hp1 pp pl) by lia. rewrite (Hb1 bl Hbl). reflexivity.
    + rewrite compose_steps. cbn [snd]. rewrite Hmem4. exact Hpost3.
Qed.
End SharedTemplate.

(** X19.  A header and a footer cut from one slice ([tmpl[:k]] and
    [tmpl[k:]]) lose the footer.  When the body section is not longer
    than the footer, the first append of "Compose all lines" writes the
    body over the first footer cells (and the second append the merged
    lines after them, if they fit as well): the text ends in the
    overwritten footer instead of [post], and the call leaves
    [c.PostLines] overwritten. *)
Theorem shared_template_loses_its_footer :
  forall (json_Marshal : string -> string)
         (printer_Format : string -> string + string)
         (range_order : forall V : Type, gomap V -> gomap V)
         (c : TerraformFileConfig),
    fair_order range_order ->
    wf_receiver c ->
    span_ptr (post_span c) = span_ptr (pre_span c) + span_len (pre_span c) ->
    span_cap (pre_span c) = span_len (pre_span c) + span_len (post_span c) ->
    apart (span_ptr (body_span c)) (span_cap (body_span c))
          (span_ptr (pre_span c)) (span_cap (pre_span c)) ->
    len (BodyLines c) <= length (PostLines c) ->
    let c' := snd (Generate json_Marshal printer_Format range_order c) in
    let B := firstn (len (BodyLines c))
                    (backing (merge json_Marshal range_order c)) in
    let merged :=
      merged_lines json_Marshal range_order c (elems (BodyLines c)) in
    let written :=
      if Nat.leb (len (BodyLines c) + length merged) (length (PostLines c))
      then B ++ merged else B in
    allLines json_Marshal range_order c
    = PreLines c ++ B ++ merged
        ++ (written ++ skipn (length written) (PostLines c))
    /\ PostLines c' = written ++ skipn (length written) (PostLines c).
Proof.
  intros jm pf ro c Hfair Hwf Hptr Hcapp Hbody Hfits c' B merged written.
  assert (Hws : wf_slice (BodyLines c)).
  { destruct Hwf as (_ & (Hbl & Hbc) & _).
    unfold wf_slice, BodyLines. cbn [len arr].
    rewrite read_length by assumption. exact Hbl. }
  destruct (merge_view jm ro c Hfair Hws) as [Hv Hwst].
  assert (Hcap : length (backing (merge jm ro c)) = span_cap (body_span c)).
  { rewrite merge_capacity by exact Hws.
    unfold BodyLines. cbn [arr]. apply read_length.
    destruct Hwf as (_ & (_ & Hbc) & _). exact Hbc. }
  assert (Hol : length (PostLines c) = span_len (post_span c)).
  { unfold PostLines. apply read_length.
    destruct Hwf as (_ & _ & (Hol & Hoc)). lia. }
  rewrite Hol in Hfits. cbn [BodyLines len] in Hfits.
  destruct (shared_template_lines c (merge jm ro c) Hwf Hwst Hcap
                                  Hptr Hcapp Hbody Hfits) as [Hlines Hpost].
  cbv zeta in Hlines, Hpost. rewrite Hv in Hlines, Hpost.
  unfold written, B, merged. rewrite Hol. cbn [BodyLines len].
  split; [exact Hlines|exact Hpost].
Qed.

Lemma shared_template_loses_its_footer_witness :
  PreLines template_config = ["module {"%string]
  /\ PostLines template_config = ["}"%string]
  /\ allLines sample_json sample_order template_config
     = ["module {"; "x = 1"; "x = 1"; "x = 1"]%string
  /\ PostLines (snd (Generate sample_json sample_format sample_order
                              template_config))
     = ["x = 1"%string].
Proof.
  split; [reflexivity|]. split; [reflexivity|].
  refine (shared_template_loses_its_footer
            sample_json sample_format sample_order template_config
            _ _ eq_refl eq_refl _ _).
  - intros V m. apply Permutation_refl.
  - repeat split; cbn; lia.
  - unfold apart; cbn; lia.
  - cbn; lia.
Defined.

(** ** The reserved commands *)

(** X17.  Run as [wheels-complete-upgrade] without the path argument,
    [main] prints its notice and then panics on the missing [os.Args[2]]:
    that notice is all the run does, no upgrade helper is called and the
    world is left as it was. *)
Theorem complete_upgrade_without_path_panics :
  forall (World Version : Type) (env : Collaborators World Version)
         (plugins : list (Plugin World)) (arg0 : string) (w : World),
    main env plugins [arg0; "wheels-complete-upgrade"%string] w
    = ([PrintInfo "🍺 Upgraded to latest version" []], w,
       inr (Panic "index out of range")).
Proof.
  intros World Version env plugins arg0 w.
  rewrite (main_reserved env plugins arg0 ["wheels-complete-upgrade"%string] w)
    by reflexivity.
  reflexivity.
Qed.

Section UpgradeFacts.
Context {World Version : Type}.
Variable env : Collaborators World Version.

End UpgradeFacts.


